(** * StreamingUploadFileWrapper: a bounded replay buffer over a stream

    Shallow embedding of
    [googlecloudsdk/command_lib/storage/streaming_upload_file_wrapper.py].

    Byte strings are [list byte], Python integers are [Z], the deque of
    buffered blocks is a [list] whose head is the left end.  Methods of the
    class are state transformers over the record of its attributes; a Python
    exception is an outcome of the call that keeps the attribute values
    reached when it was raised. *)

From Stdlib Require Import ZArith List Lia Bool.
From Stdlib Require Import Strings.String Strings.Byte.
Import ListNotations.
Local Open Scope Z_scope.

(** ** Byte strings and Python slicing *)

Definition bytes : Type := list byte.

Definition len (data : bytes) : Z := Z.of_nat (List.length data).

(** The clamping Python applies to a slice bound: a negative bound counts
    from the end, and every bound is brought back into [0, len]. *)
Definition slice_bound (n i : Z) : Z :=
  if i <? 0 then Z.max 0 (n + i) else Z.min i n.

(** [data[lo:hi]] *)
Definition slice (data : bytes) (lo hi : Z) : bytes :=
  let a := slice_bound (len data) lo in
  let b := slice_bound (len data) hi in
  firstn (Z.to_nat (b - a)) (skipn (Z.to_nat a) data).

(** [data[lo:]] *)
Definition slice_from (data : bytes) (lo : Z) : bytes :=
  skipn (Z.to_nat (slice_bound (len data) lo)) data.

(** [b''.join(blocks)] *)
Definition join (blocks : list bytes) : bytes := List.concat blocks.

(** [sum(len(b) for b in blocks)] *)
Definition total_len (blocks : list bytes) : Z :=
  fold_right (fun b acc => len b + acc) 0 blocks.

(** ** The wrapped stream *)

(** Modelled from the spec: the underlying stream is an external
    collaborator of which only the capability "read up to N bytes" is used;
    [stream_read n s] is the byte string returned by [s.read(n)] together
    with the stream afterwards. *)
Class RawStream (S : Type) : Type :=
  { stream_read : Z -> S -> bytes * S }.

(** Modelled from the spec: a stream that yields a fixed byte string "in
    reads of whatever size requested" (the behaviour of [io.BytesIO]): a
    negative size reads everything that is left. *)
Definition bytes_read (n : Z) (s : bytes) : bytes * bytes :=
  if n <? 0 then (s, []) else (firstn (Z.to_nat n) s, skipn (Z.to_nat n) s).

#[export] Instance BytesIO : RawStream bytes := { stream_read := bytes_read }.

(** ** Exceptions and outcomes *)

(** The three messages of [errors.Error] raised by [seek]. *)
Inductive message : Type :=
| BufferExceeded (offset buffer_start buffer_end : Z)
| InvalidSeekEnd (offset max_buffer_size : Z)
| InvalidSeekMode (whence offset : Z).

Inductive exn : Type :=
| UnboundLocalError (name : string)
| IndexError
| Error (msg : message).

(** A call returns, raises, or is still running when the bound on the
    iterations of the draining loop of [seek] is used up. *)
Inductive outcome (A : Type) : Type :=
| Returns (a : A)
| Raises (e : exn)
| OutOfFuel.

Arguments Returns {A} a.
Arguments Raises {A} e.
Arguments OutOfFuel {A}.

(** ** The wrapper object *)

Record wrapper (S : Type) : Type := Wrapper
  { _stream : S;
    _buffer : list bytes;
    _max_buffer_size : Z;
    _buffer_start : Z;
    _position : Z;
    _buffer_end : Z }.

Arguments Wrapper {S}.
Arguments _stream {S}.
Arguments _buffer {S}.
Arguments _max_buffer_size {S}.
Arguments _buffer_start {S}.
Arguments _position {S}.
Arguments _buffer_end {S}.

Definition set_stream {S} (w : wrapper S) (s : S) : wrapper S :=
  Wrapper s (_buffer w) (_max_buffer_size w) (_buffer_start w)
          (_position w) (_buffer_end w).

Definition set_buffer {S} (w : wrapper S) (b : list bytes) : wrapper S :=
  Wrapper (_stream w) b (_max_buffer_size w) (_buffer_start w)
          (_position w) (_buffer_end w).

Definition set_buffer_start {S} (w : wrapper S) (z : Z) : wrapper S :=
  Wrapper (_stream w) (_buffer w) (_max_buffer_size w) z
          (_position w) (_buffer_end w).

Definition set_position {S} (w : wrapper S) (z : Z) : wrapper S :=
  Wrapper (_stream w) (_buffer w) (_max_buffer_size w) (_buffer_start w)
          z (_buffer_end w).

Definition set_buffer_end {S} (w : wrapper S) (z : Z) : wrapper S :=
  Wrapper (_stream w) (_buffer w) (_max_buffer_size w) (_buffer_start w)
          (_position w) z.

(** [__init__] *)
Definition init {S} (stream : S) (max_buffer_size : Z) : wrapper S :=
  Wrapper stream [] max_buffer_size 0 0 0.

(** ** Methods as state transformers *)

Definition M (S A : Type) : Type := wrapper S -> outcome A * wrapper S.

Definition ret {S A} (a : A) : M S A := fun w => (Returns a, w).

Definition raise {S A} (e : exn) : M S A := fun w => (Raises e, w).

Definition bind {S A B} (c : M S A) (k : A -> M S B) : M S B :=
  fun w =>
    match c w with
    | (Returns a, w') => k a w'
    | (Raises e, w') => (Raises e, w')
    | (OutOfFuel, w') => (OutOfFuel, w')
    end.

Notation "x <- c ;; k" := (bind c (fun x => k))
  (at level 61, c at next level, right associativity).
Notation "c ;;; k" := (bind c (fun _ => k))
  (at level 61, right associativity).

Definition get {S} : M S (wrapper S) := fun w => (Returns w, w).

Definition put {S} (f : wrapper S -> wrapper S) : M S unit :=
  fun w => (Returns tt, f w).

(** [self._stream.read(n)] *)
Definition read_stream {S} `{RawStream S} (n : Z) : M S bytes :=
  fun w =>
    let '(data, s) := stream_read n (_stream w) in
    (Returns data, set_stream w s).

(** [tell] *)
Definition tell {S} (w : wrapper S) : Z := _position w.

(** The loop of [_read_from_buffer] over the blocks that are left to visit.
    [read_size] is the local variable of that name: [None] as long as no
    iteration has assigned it, in which case the statement
    [self._position += read_size] that follows the [if] raises. *)
Fixpoint _read_from_buffer_loop {S} (blocks : list bytes)
    (position_in_buffer bytes_remaining : Z) (read_size : option Z)
    (buffered_data : list bytes) : M S (list bytes) :=
  match blocks with
  | [] => ret buffered_data
  | data :: rest =>
      self <- get ;;
      let '(read_size, buffered_data, bytes_remaining) :=
        if position_in_buffer + len data >=? _position self then
          let offset_from_position := _position self - position_in_buffer in
          let bytes_to_read_this_block := len data - offset_from_position in
          let read_size := Z.min bytes_to_read_this_block bytes_remaining in
          (Some read_size,
           buffered_data ++
             [slice data offset_from_position
                    (offset_from_position + read_size)],
           bytes_remaining - read_size)
        else (read_size, buffered_data, bytes_remaining) in
      let position_in_buffer := position_in_buffer + len data in
      match read_size with
      | None => raise (UnboundLocalError "read_size"%string)
      | Some r =>
          put (fun self => set_position self (_position self + r)) ;;;
          _read_from_buffer_loop rest position_in_buffer bytes_remaining
                                 (Some r) buffered_data
      end
  end.

Definition _read_from_buffer {S} (amount : Z) : M S bytes :=
  self <- get ;;
  if _position self <? _buffer_end self then
    buffered_data <-
      _read_from_buffer_loop (_buffer self) (_buffer_start self) amount
                             None [] ;;
    ret (join buffered_data)
  else ret (join []).

(** The [while] loop of [_store_data].  An iteration either ends the loop,
    raises, or removes the leftmost block and goes on; [fuel] bounds the
    number of iterations and [_store_data] supplies one more than the number
    of blocks, which [_store_data_loop_fuel] shows is never used up. *)
Fixpoint _store_data_loop {S} (fuel : nat) : M S unit :=
  match fuel with
  | O => fun w => (OutOfFuel, w)
  | Datatypes.S fuel =>
      self <- get ;;
      if _buffer_end self - _buffer_start self >? _max_buffer_size self then
        match _buffer self with
        | [] => raise IndexError
        | oldest_data :: rest =>
            put (fun self => set_buffer self rest) ;;;
            put (fun self =>
                   set_buffer_start self
                     (_buffer_start self + len oldest_data)) ;;;
            self <- get ;;
            match oldest_data with
            | [] => _store_data_loop fuel
            | _ :: _ =>
                let refill_amount :=
                  _max_buffer_size self -
                  (_buffer_end self - _buffer_start self) in
                if refill_amount >=? 1 then
                  put (fun self =>
                         set_buffer self
                           (slice_from oldest_data (- refill_amount)
                              :: _buffer self)) ;;;
                  put (fun self =>
                         set_buffer_start self
                           (_buffer_start self - refill_amount)) ;;;
                  _store_data_loop fuel
                else _store_data_loop fuel
            end
        end
      else ret tt
  end.

Definition _store_data {S} (data : bytes) : M S unit :=
  match data with
  | [] => ret tt
  | _ :: _ =>
      put (fun self => set_buffer self (_buffer self ++ [data])) ;;;
      put (fun self => set_buffer_end self (_buffer_end self + len data)) ;;;
      self <- get ;;
      _store_data_loop (Datatypes.S (List.length (_buffer self)))
  end.

(** [size is None or size < 0] *)
Definition read_all_bytes (size : option Z) : bool :=
  match size with
  | None => true
  | Some n => n <? 0
  end.

(** The first value of [bytes_remaining] in [read]: [max_buffer_size] when
    [read_all_bytes], else [size]. *)
Definition bytes_wanted (size : option Z) (max_buffer_size : Z) : Z :=
  match size with
  | None => max_buffer_size
  | Some n => if n <? 0 then max_buffer_size else n
  end.

(** [read]; [None] is the Python [None]. *)
Definition read {S} `{RawStream S} (size : option Z) : M S bytes :=
  self <- get ;;
  let bytes_remaining := bytes_wanted size (_max_buffer_size self) in
  data <- _read_from_buffer bytes_remaining ;;
  let bytes_remaining := bytes_remaining - len data in
  new_data <-
    (if read_all_bytes size then read_stream (-1)
     else if negb (bytes_remaining =? 0) then read_stream bytes_remaining
     else ret []) ;;
  put (fun self => set_position self (_position self + len new_data)) ;;;
  _store_data new_data ;;;
  ret (data ++ new_data).

Definition SEEK_SET : Z := 0.
Definition SEEK_END : Z := 2.

(** [while self.read(self._max_buffer_size): pass], at most [fuel] reads. *)
Fixpoint drain {S} `{RawStream S} (fuel : nat) : M S unit :=
  match fuel with
  | O => fun w => (OutOfFuel, w)
  | Datatypes.S fuel =>
      self <- get ;;
      data <- read (Some (_max_buffer_size self)) ;;
      match data with
      | [] => ret tt
      | _ :: _ => drain fuel
      end
  end.

(** [seek]; [fuel] bounds the reads of the draining loop. *)
Definition seek {S} `{RawStream S} (fuel : nat) (offset whence : Z)
  : M S unit :=
  self <- get ;;
  if whence =? SEEK_SET then
    if (offset <? _buffer_start self) || (offset >? _buffer_end self) then
      raise (Error (BufferExceeded offset (_buffer_start self)
                                   (_buffer_end self)))
    else put (fun self => set_position self offset)
  else if whence =? SEEK_END then
    if offset >? _max_buffer_size self then
      raise (Error (InvalidSeekEnd offset (_max_buffer_size self)))
    else
      drain fuel ;;;
      put (fun self => set_position self (_position self - offset))
  else raise (Error (InvalidSeekMode whence offset)).

(** ** Sequences of calls *)

Inductive call : Type :=
| CallRead (size : option Z)
| CallSeek (offset whence : Z)
| CallTell.

Inductive value : Type :=
| VBytes (data : bytes)
| VInt (z : Z)
| VNone.

Definition do_call {S} `{RawStream S} (fuel : nat) (c : call) : M S value :=
  match c with
  | CallRead size => data <- read size ;; ret (VBytes data)
  | CallSeek offset whence => seek fuel offset whence ;;; ret VNone
  | CallTell => self <- get ;; ret (VInt (tell self))
  end.

(** The calls are made one after the other on the same object; a caller may
    go on after an exception.  The run records the outcome of every call
    and the object after it, and ends at a call that is still running when
    its fuel is used up. *)
Fixpoint run {S} `{RawStream S} (fuel : nat) (calls : list call)
    (w : wrapper S) : list (outcome value * wrapper S) :=
  match calls with
  | [] => []
  | c :: rest =>
      match do_call fuel c w with
      | (OutOfFuel, w') => [(OutOfFuel, w')]
      | (o, w') => (o, w') :: run fuel rest w'
      end
  end.

(** The object after the last call of a run. *)
Definition final {S} `{RawStream S} (fuel : nat) (calls : list call)
    (w : wrapper S) : wrapper S :=
  last (map snd (run fuel calls w)) w.

(** The calls [read(size)] of a list of sizes made one after the other, with
    the outcome of each and the object after it. *)
Fixpoint reads {S} `{RawStream S} (sizes : list (option Z)) (w : wrapper S)
  : list (outcome bytes * wrapper S) :=
  match sizes with
  | [] => []
  | size :: rest =>
      let '(o, w') := read size w in
      (o, w') :: reads rest w'
  end.

(** The object after the last of these reads. *)
Definition after_reads {S} `{RawStream S} (sizes : list (option Z))
    (w : wrapper S) : wrapper S :=
  last (map snd (reads sizes w)) w.


(** ** Streams used in the examples *)

Definition b (s : string) : bytes := list_byte_of_string s.

(** [max_buffer_size = 4] over [b"0123456789"]. *)
Definition scenario : wrapper bytes := init (b "0123456789"%string) 4.

(** A stream that counts the calls of its [read]. *)
Record counted : Type := Counted { calls_made : nat; content : bytes }.

#[export] Instance CountedStream : RawStream counted :=
  { stream_read n s :=
      let '(data, rest) := bytes_read n (content s) in
      (data, Counted (Datatypes.S (calls_made s)) rest) }.

(** ** Invariants of the buffered window *)

(** The blocks are exactly the bytes between the two offsets. *)
Definition window_consistent {S} (w : wrapper S) : Prop :=
  _buffer_start w + total_len (_buffer w) = _buffer_end w.

(** The window is no larger than the configured maximum. *)
Definition window_bounded {S} (w : wrapper S) : Prop :=
  _buffer_end w - _buffer_start w <= _max_buffer_size w.

(** Everything but [_position] is the same in both objects. *)
Definition same_window {S} (w w' : wrapper S) : Prop :=
  w' = set_position w (_position w').

(** Everything but [_stream] is the same in both objects. *)
Definition same_attributes {S} (w w' : wrapper S) : Prop :=
  w' = set_stream w (_stream w').

(** ** States and auxiliary functions of the statements *)

(** The invariant of the window: consistent, bounded, and a maximum that is
    not negative. *)
Definition window_ok {S} (w : wrapper S) : Prop :=
  window_consistent w /\ window_bounded w /\ 0 <= _max_buffer_size w.

(** The length of the first block, [0] when there is none. *)
Definition head_len (blocks : list bytes) : Z :=
  match blocks with
  | [] => 0
  | data :: _ => len data
  end.

(** What [read] takes from the stream when [remaining] bytes are still
    wanted after the buffer was used. *)
Definition from_stream {S} `{RawStream S} (size : option Z) (remaining : Z)
    (s : S) : bytes * S :=
  if read_all_bytes size then stream_read (-1) s
  else if negb (remaining =? 0) then stream_read remaining s
  else ([], s).

(** The cursor is not beyond what was read from the stream. *)
Definition cursor_ok {S} (w : wrapper S) : Prop :=
  _position w <= _buffer_end w.

(** An end-relative seek is given a distance that is not negative. *)
Definition backward (offset whence : Z) : Prop :=
  whence = SEEK_END -> 0 <= offset.

(** The end-relative seeks of a call are backward. *)
Definition backward_call (c : call) : Prop :=
  match c with
  | CallSeek offset whence => backward offset whence
  | _ => True
  end.

(** The wrapper of the scenario after [read(4)] and [read(2)]: the blocks
    [b"23"] and [b"45"], [buffer_start == 2], [buffer_end == 6]. *)
Definition scenario_read_6 : wrapper bytes :=
  after_reads [Some 4; Some 2] scenario.

(** The stream after the reads of the given sizes. *)
Fixpoint stream_after {S} `{RawStream S} (ns : list Z) (s : S) : S :=
  match ns with
  | [] => s
  | n :: rest => stream_after rest (snd (stream_read n s))
  end.

(** The stream is exhausted: from now on its [read] returns [b'']. *)
Definition exhausted {S} `{RawStream S} (s : S) : Prop :=
  forall ns n, fst (stream_read n (stream_after ns s)) = [].

(** The size [read] passes to the stream when nothing came from the
    buffer, up to the sign of a negative size. *)
Definition request (size : option Z) : Z :=
  match size with
  | None => -1
  | Some n => n
  end.

(** The state in which a wrapper that is only read from stays: the window
    is well formed, no backward seek is pending, and cursor plus what is
    left of the stream is the [total] length. *)
Definition reading (total max_buffer_size : Z) (w : wrapper bytes) : Prop :=
  window_ok w /\ _position w = _buffer_end w /\
  _position w + len (_stream w) = total /\
  _max_buffer_size w = max_buffer_size /\ 0 <= _position w.

(** What was read from the stream and what is left of it make up [total]
    bytes. *)
Definition consumed (total : Z) (w : wrapper bytes) : Prop :=
  _buffer_end w + len (_stream w) = total /\ 0 <= _buffer_end w.

(** [l[lo:lo+n]] for [lo] and [n] that are not negative. *)
Definition span (lo n : Z) (l : bytes) : bytes :=
  firstn (Z.to_nat n) (skipn (Z.to_nat lo) l).

(** Over the byte string [bs]: the blocks are the bytes of [bs] between
    [buffer_start] and [buffer_end], and the stream is what follows
    [buffer_end]. *)
Definition mirrors (bs : bytes) (w : wrapper bytes) : Prop :=
  join (_buffer w)
  = span (_buffer_start w) (_buffer_end w - _buffer_start w) bs /\
  _stream w = skipn (Z.to_nat (_buffer_end w)) bs /\
  0 <= _buffer_start w /\ _buffer_end w <= len bs.

(** The cursor is in the first block or at one of its ends. *)
Definition in_first_block {S} (w : wrapper S) : Prop :=
  _buffer_start w <= _position w <= _buffer_start w + head_len (_buffer w).

(** The effect on the window of storing [data]: [buffer_end] moves by its
    length, [buffer_start] moves up to [buffer_end - max_buffer_size] when
    it was below, and the blocks are the old ones and [data] less the bytes
    before the new [buffer_start]. *)
Definition appended {S} (data : bytes) (w w' : wrapper S) : Prop :=
  _buffer_end w' = _buffer_end w + len data /\
  _buffer_start w'
  = Z.max (_buffer_start w) (_buffer_end w' - _max_buffer_size w) /\
  join (_buffer w')
  = skipn (Z.to_nat (_buffer_start w' - _buffer_start w))
          (join (_buffer w) ++ data) /\
  _max_buffer_size w' = _max_buffer_size w /\
  (Forall (fun d => d <> []) (_buffer w) ->
   Forall (fun d => d <> []) (_buffer w')).

(** A stream together with the bytes its reads have returned so far: every
    read is passed to the stream as it is and what it returns is added to
    the log. *)
Record logged (S : Type) : Type := Logged { inner : S; returned : bytes }.

Arguments Logged {S}.
Arguments inner {S}.
Arguments returned {S}.

#[export] Instance LoggedStream {S} `{RawStream S} : RawStream (logged S) :=
  { stream_read n s :=
      let '(data, rest) := stream_read n (inner s) in
      (data, Logged rest (returned s ++ data)) }.

(** The wrapper over the stream itself, the log left out. *)
Definition forget {S} (w : wrapper (logged S)) : wrapper S :=
  Wrapper (inner (_stream w)) (_buffer w) (_max_buffer_size w)
          (_buffer_start w) (_position w) (_buffer_end w).

(** A computation over the stream and the same computation over the logged
    stream go together: same outcome, same object up to the log. *)
Definition commutes {S A} (c : M S A) (c' : M (logged S) A) : Prop :=
  forall w, c (forget w) = (fst (c' w), forget (snd (c' w))).

(** The window against the log: it ends at the last byte the stream has
    returned, it starts [max_buffer_size] bytes before or at 0, and its
    blocks are the bytes of the log from [buffer_start] on. *)
Definition logs {S} (w : wrapper (logged S)) : Prop :=
  _buffer_end w = len (returned (_stream w)) /\
  _buffer_start w
  = Z.max 0 (len (returned (_stream w)) - _max_buffer_size w) /\
  join (_buffer w)
  = skipn (Z.to_nat (_buffer_start w)) (returned (_stream w)).

(** ** Lengths and slices *)

Lemma len_nonneg (data : bytes) : 0 <= len data.
Proof. unfold len. lia. Qed.

Lemma len_app (x y : bytes) : len (x ++ y) = len x + len y.
Proof. unfold len. rewrite length_app. lia. Qed.

Lemma len_cons (c : byte) (data : bytes) : len (c :: data) = 1 + len data.
Proof. unfold len. simpl List.length. lia. Qed.

Lemma total_len_app (xs ys : list bytes) :
  total_len (xs ++ ys) = total_len xs + total_len ys.
Proof. induction xs as [|x xs IH]; simpl; [reflexivity | rewrite IH; lia]. Qed.

(** [data[-r:]] has [r] bytes when [data] has at least that many. *)
Lemma len_slice_from_tail (data : bytes) (r : Z) :
  1 <= r <= len data -> len (slice_from data (- r)) = r.
Proof.
  intros Hr. unfold slice_from, slice_bound.
  destruct (Z.ltb_spec (- r) 0) as [_|Hge]; [|lia].
  unfold len in *. rewrite length_skipn. lia.
Qed.

(** ** [_store_data] *)

Ltac run_monad :=
  unfold bind, get, put, ret, raise;
  unfold set_stream, set_buffer, set_buffer_start, set_position,
    set_buffer_end;
  cbn [_stream _buffer _max_buffer_size _buffer_start _position _buffer_end].

(** When the window is within the maximum the loop ends at once. *)
Lemma _store_data_loop_done {S} (fuel : nat) (w : wrapper S) :
  window_bounded w ->
  _store_data_loop (Datatypes.S fuel) w = (Returns tt, w).
Proof.
  unfold window_bounded. intros Hb. simpl. run_monad.
  destruct (Z.gtb_spec (_buffer_end w - _buffer_start w) (_max_buffer_size w));
    [lia | reflexivity].
Qed.

(** On a consistent window the loop returns with the window consistent and
    bounded; it touches the blocks and [_buffer_start] only, and one unit of
    fuel more than the number of blocks is enough. *)
Lemma _store_data_loop_spec {S} (fuel : nat) :
  forall w : wrapper S,
    window_consistent w -> 0 <= _max_buffer_size w ->
    (List.length (_buffer w) < fuel)%nat ->
    exists w',
      _store_data_loop fuel w = (Returns tt, w') /\
      window_consistent w' /\ window_bounded w' /\
      _stream w' = _stream w /\ _position w' = _position w /\
      _buffer_end w' = _buffer_end w /\
      _max_buffer_size w' = _max_buffer_size w.
Proof.
  induction fuel as [|fuel IH]; intros w Hc Hmax Hfuel; [lia|].
  destruct (Z.gtb_spec (_buffer_end w - _buffer_start w) (_max_buffer_size w))
    as [Hgt|Hle].
  2:{ exists w. rewrite _store_data_loop_done by exact Hle.
      repeat split; auto. }
  destruct w as [st buf mx bs pos be]. unfold window_consistent in *.
  simpl in *.
  destruct buf as [|oldest rest].
  { simpl in Hc. lia. }
  simpl in Hc, Hfuel.
  run_monad.
  destruct (Z.gtb_spec (be - bs) mx) as [_|]; [|lia].
  destruct oldest as [|c oldest].
  - (* an empty block is dropped *)
    destruct (IH (Wrapper st rest mx (bs + len []) pos be))
      as (w' & E & H1 & H2 & H3); simpl; try lia.
    exists w'. simpl in H3. rewrite E. auto.
  - set (old := c :: oldest) in *.
    cbn [_stream _buffer _max_buffer_size _buffer_start _position
         _buffer_end].
    destruct (Z.geb_spec (mx - (be - (bs + len old))) 1) as [Hre|Hre].
    + (* the tail of the block is put back *)
      destruct fuel as [|fuel]; [lia|].
      rewrite _store_data_loop_done.
      2:{ unfold window_bounded. simpl. lia. }
      eexists. split; [reflexivity|].
      unfold window_consistent, window_bounded. simpl.
      rewrite len_slice_from_tail by lia.
      repeat split; lia.
    + destruct (IH (Wrapper st rest mx (bs + len old) pos be))
        as (w' & E & H1 & H2 & H3); simpl; try lia.
      exists w'. simpl in H3. rewrite E. auto.
Qed.

Lemma _store_data_spec {S} (data : bytes) (w : wrapper S) :
  window_ok w ->
  exists w',
    _store_data data w = (Returns tt, w') /\ window_ok w' /\
    _stream w' = _stream w /\ _position w' = _position w /\
    _buffer_end w' = _buffer_end w + len data /\
    _max_buffer_size w' = _max_buffer_size w.
Proof.
  intros (Hc & Hb & Hmax). destruct data as [|c data].
  - exists w. simpl. unfold ret, window_ok. unfold len. simpl.
    repeat split; auto; lia.
  - set (d := c :: data). unfold _store_data.
    change (match d with [] => ret tt | _ :: _ => ?k end) with k.
    run_monad.
    match goal with |- context [_store_data_loop ?f ?w0] =>
      destruct (_store_data_loop_spec f w0)
        as (w' & E & H1 & H2 & H3 & H4 & H5 & H6)
    end;
      cbn [_stream _buffer _max_buffer_size _buffer_start _position
           _buffer_end];
      try lia.
    { unfold window_consistent in *. cbn [_buffer _buffer_start _buffer_end].
      rewrite total_len_app. simpl. lia. }
    exists w'. rewrite E.
    cbn [_stream _buffer _max_buffer_size _buffer_start _position
         _buffer_end] in *.
    unfold window_ok.
    repeat split; auto; lia.
Qed.

(** ** [_read_from_buffer] *)

Ltac projections :=
  cbn [_stream _buffer _max_buffer_size _buffer_start _position _buffer_end]
    in *.

(** The scan of the blocks changes [_position] only. *)
Lemma _read_from_buffer_loop_frame {S} (blocks : list bytes) :
  forall pib remaining read_size buffered (w : wrapper S) o w',
    _read_from_buffer_loop blocks pib remaining read_size buffered w
    = (o, w') ->
    same_window w w'.
Proof.
  unfold same_window.
  induction blocks as [|data rest IH];
    intros pib remaining rs buffered w o w' E.
  - inversion E; subst. destruct w'; reflexivity.
  - simpl in E. unfold bind at 1, get at 1 in E.
    destruct (pib + len data >=? _position w).
    + unfold bind, put in E. apply IH in E. rewrite E.
      destruct w; reflexivity.
    + destruct rs as [r|].
      * unfold bind, put in E. apply IH in E. rewrite E.
        destruct w; reflexivity.
      * inversion E; subst. destruct w'; reflexivity.
Qed.

Lemma head_len_nonneg (blocks : list bytes) : 0 <= head_len blocks.
Proof. destruct blocks; simpl; [lia | apply len_nonneg]. Qed.

(** Once the cursor is not beyond the end of the block being visited, the
    scan returns and leaves the cursor at or before the end of the last
    block. *)
Lemma _read_from_buffer_loop_covered {S} (blocks : list bytes) :
  forall pib remaining read_size buffered (w : wrapper S),
    _position w <= pib + head_len blocks ->
    exists out w',
      _read_from_buffer_loop blocks pib remaining read_size buffered w
      = (Returns out, w') /\ _position w' <= pib + total_len blocks.
Proof.
  induction blocks as [|data rest IH]; intros pib remaining rs buffered w Hpos.
  - exists buffered, w. unfold head_len in Hpos. simpl.
    split; [reflexivity | lia].
  - unfold head_len in Hpos. simpl. unfold bind at 1, get at 1.
    destruct (Z.geb_spec (pib + len data) (_position w)) as [_|]; [|lia].
    unfold bind, put.
    match goal with |- context [_read_from_buffer_loop rest ?p ?r ?s ?d ?w0] =>
      destruct (IH p r s d w0) as (out & w' & E & Hle)
    end.
    { unfold set_position. projections.
      pose proof (head_len_nonneg rest). lia. }
    exists out, w'. split; [exact E | lia].
Qed.

Lemma _read_from_buffer_frame {S} (amount : Z) (w : wrapper S) o w' :
  _read_from_buffer amount w = (o, w') -> same_window w w'.
Proof.
  unfold _read_from_buffer, bind at 1, get at 1. intros E.
  destruct (_position w <? _buffer_end w).
  - unfold bind in E.
    destruct (_read_from_buffer_loop (_buffer w) (_buffer_start w) amount
                None [] w) as [o1 w1] eqn:E1.
    apply _read_from_buffer_loop_frame in E1.
    destruct o1; inversion E; subst; exact E1.
  - inversion E; subst. unfold same_window. destruct w'; reflexivity.
Qed.

(** The cursor never passes [_buffer_end] while reading from the buffer. *)
Lemma _read_from_buffer_position {S} (amount : Z) (w : wrapper S) o w' :
  window_consistent w -> _position w <= _buffer_end w ->
  _read_from_buffer amount w = (o, w') ->
  _position w' <= _buffer_end w.
Proof.
  unfold window_consistent, _read_from_buffer, bind at 1, get at 1.
  intros Hc Hpos E.
  destruct (_position w <? _buffer_end w).
  2:{ inversion E; subst. exact Hpos. }
  destruct (_buffer w) as [|data rest] eqn:Eb.
  { inversion E; subst. exact Hpos. }
  destruct (Z.geb_spec (_buffer_start w + len data) (_position w))
    as [Hin|Hout].
  - destruct (_read_from_buffer_loop_covered (data :: rest) (_buffer_start w)
                amount None [] w) as (out & w1 & E1 & Hle); [simpl; lia|].
    unfold bind in E. rewrite E1 in E. inversion E; subst. lia.
  - unfold bind in E. simpl in E. unfold bind at 1, get at 1 in E.
    destruct (Z.geb_spec (_buffer_start w + len data) (_position w)); [lia|].
    inversion E; subst. exact Hpos.
Qed.

(** With no backward seek pending nothing is read from the buffer. *)
Lemma _read_from_buffer_nothing {S} (amount : Z) (w : wrapper S) :
  _buffer_end w <= _position w ->
  _read_from_buffer amount w = (Returns [], w).
Proof.
  intros Hpos. unfold _read_from_buffer, bind, get.
  destruct (Z.ltb_spec (_position w) (_buffer_end w)); [lia | reflexivity].
Qed.

(** ** [read] *)

Lemma window_ok_same_window {S} (w w' : wrapper S) :
  same_window w w' -> window_ok w -> window_ok w'.
Proof.
  unfold same_window. intros E. rewrite E. destruct w.
  unfold window_ok, window_consistent, window_bounded. simpl. auto.
Qed.

(** [read] when the buffer part returned [data]: the bytes [from_stream]
    come after it, the cursor and [_buffer_end] move by their number, and
    the window stays well formed. *)
Lemma read_returns {S} `{RawStream S} (size : option Z) (w : wrapper S)
    (data : bytes) (w1 : wrapper S) :
  window_ok w ->
  _read_from_buffer (bytes_wanted size (_max_buffer_size w)) w
  = (Returns data, w1) ->
  let new :=
    from_stream size (bytes_wanted size (_max_buffer_size w) - len data)
                (_stream w) in
  exists w',
    read size w = (Returns (data ++ fst new), w') /\ window_ok w' /\
    _stream w' = snd new /\
    _position w' = _position w1 + len (fst new) /\
    _buffer_end w' = _buffer_end w + len (fst new) /\
    _max_buffer_size w' = _max_buffer_size w.
Proof.
  intros Hok E new.
  pose proof (_read_from_buffer_frame _ _ _ _ E) as Hf.
  pose proof (window_ok_same_window _ _ Hf Hok) as Hok1.
  unfold same_window in Hf.
  assert (Es : _stream w1 = _stream w) by (rewrite Hf; reflexivity).
  assert (Ee : _buffer_end w1 = _buffer_end w) by (rewrite Hf; reflexivity).
  assert (Em : _max_buffer_size w1 = _max_buffer_size w)
    by (rewrite Hf; reflexivity).
  set (w2 := set_position (set_stream w1 (snd new))
                          (_position w1 + len (fst new))).
  destruct (_store_data_spec (fst new) w2)
    as (w' & E' & Hok' & H1 & H2 & H3 & H4).
  { revert Hok1. destruct w1.
    unfold window_ok, window_consistent, window_bounded. simpl. auto. }
  exists w'. unfold w2 in *. clear w2.
  unfold set_position, set_stream in H1, H2, H3, H4. projections.
  split; [|split; [exact Hok' | repeat split; congruence]].
  unfold read, bind at 1, get at 1. unfold bind at 1. rewrite E.
  subst new. unfold from_stream in *.
  destruct (read_all_bytes size).
  - unfold bind at 1, read_stream. rewrite Es.
    destruct (stream_read (-1) (_stream w)) as [nd s'].
    unfold bind, put. unfold set_position, set_stream in *. projections.
    cbn [fst snd] in *. rewrite E'. reflexivity.
  - destruct (negb (bytes_wanted size (_max_buffer_size w) - len data =? 0)).
    + unfold bind at 1, read_stream. rewrite Es.
      destruct (stream_read _ (_stream w)) as [nd s'].
      unfold bind, put. unfold set_position, set_stream in *. projections.
      cbn [fst snd] in *. rewrite E'. reflexivity.
    + unfold bind, put, ret. unfold set_position, set_stream in *.
      projections. cbn [fst snd] in *. rewrite <- Es in E'. rewrite E'.
      reflexivity.
Qed.

(** [read] when the buffer part did not return: nothing else is done. *)
Lemma read_not_returns {S} `{RawStream S} (size : option Z) (w : wrapper S)
    (o : outcome bytes) (w1 : wrapper S) :
  _read_from_buffer (bytes_wanted size (_max_buffer_size w)) w = (o, w1) ->
  (forall data, o <> Returns data) ->
  exists o', read size w = (o', w1) /\ forall data, o' <> Returns data.
Proof.
  intros E Hne. unfold read, bind at 1, get at 1. unfold bind at 1. rewrite E.
  destruct o as [data|e|].
  - destruct (Hne data); reflexivity.
  - exists (Raises e). split; [reflexivity | discriminate].
  - exists OutOfFuel. split; [reflexivity | discriminate].
Qed.

(** [read] keeps the window well formed and the cursor within it, whatever
    its outcome. *)
Lemma read_preserves {S} `{RawStream S} (size : option Z) (w : wrapper S)
    o w' :
  window_ok w -> read size w = (o, w') ->
  window_ok w' /\ (cursor_ok w -> cursor_ok w') /\
  _max_buffer_size w' = _max_buffer_size w.
Proof.
  intros Hok E.
  destruct (_read_from_buffer (bytes_wanted size (_max_buffer_size w)) w)
    as [o1 w1] eqn:E1.
  pose proof (_read_from_buffer_frame _ _ _ _ E1) as Hf.
  assert (Hpos : cursor_ok w -> _position w1 <= _buffer_end w).
  { intros Hc.
    exact (_read_from_buffer_position _ _ _ _ (proj1 Hok) Hc E1). }
  destruct o1 as [data|e|].
  - destruct (read_returns size w data w1 Hok E1)
      as (w2 & E2 & Hok2 & _ & Hp & He & Hm).
    rewrite E in E2. inversion E2; subst.
    repeat split; try apply Hok2; try exact Hm.
    unfold cursor_ok. intros Hc. specialize (Hpos Hc). lia.
  - destruct (read_not_returns size w _ w1 E1) as (o' & E2 & _);
      [discriminate|].
    rewrite E in E2. inversion E2; subst.
    pose proof (window_ok_same_window _ _ Hf Hok).
    unfold same_window in Hf.
    repeat split; try apply H0.
    + unfold cursor_ok. intros Hc. specialize (Hpos Hc).
      rewrite Hf at 2. simpl. exact Hpos.
    + rewrite Hf. reflexivity.
  - destruct (read_not_returns size w _ w1 E1) as (o' & E2 & _);
      [discriminate|].
    rewrite E in E2. inversion E2; subst.
    pose proof (window_ok_same_window _ _ Hf Hok).
    unfold same_window in Hf.
    repeat split; try apply H0.
    + unfold cursor_ok. intros Hc. specialize (Hpos Hc).
      rewrite Hf at 2. simpl. exact Hpos.
    + rewrite Hf. reflexivity.
Qed.

(** [read] written out: the buffer part, then the stream part, then the
    update of the cursor and of the window. *)
Lemma read_unfold {S} `{RawStream S} (size : option Z) (w : wrapper S) :
  read size w =
  match _read_from_buffer (bytes_wanted size (_max_buffer_size w)) w with
  | (Returns data, w1) =>
      let new :=
        from_stream size (bytes_wanted size (_max_buffer_size w) - len data)
                    (_stream w1) in
      match _store_data (fst new)
              (set_position (set_stream w1 (snd new))
                            (_position w1 + len (fst new))) with
      | (Returns _, w2) => (Returns (data ++ fst new), w2)
      | (Raises e, w2) => (Raises e, w2)
      | (OutOfFuel, w2) => (OutOfFuel, w2)
      end
  | (Raises e, w1) => (Raises e, w1)
  | (OutOfFuel, w1) => (OutOfFuel, w1)
  end.
Proof.
  unfold read, bind at 1, get at 1. unfold bind at 1.
  destruct (_read_from_buffer _ w) as [[data|e|] w1]; try reflexivity.
  unfold from_stream. cbv zeta.
  destruct (read_all_bytes size).
  - unfold bind at 1, read_stream.
    destruct (stream_read (-1) (_stream w1)) as [nd s'].
    unfold bind, put, ret. cbn [fst snd].
    unfold set_position, set_stream. projections.
    destruct (_store_data nd _) as [[[]|e|] w2]; reflexivity.
  - destruct (negb (bytes_wanted size (_max_buffer_size w) - len data =? 0)).
    + unfold bind at 1, read_stream.
      destruct (stream_read _ (_stream w1)) as [nd s'].
      unfold bind, put, ret. cbn [fst snd].
      unfold set_position, set_stream. projections.
      destruct (_store_data nd _) as [[[]|e|] w2]; reflexivity.
    + unfold bind, put, ret. cbn [fst snd].
      unfold set_position, set_stream. projections. reflexivity.
Qed.

Lemma set_position_same {S} (w : wrapper S) :
  set_position (set_stream w (_stream w)) (_position w + len []) = w.
Proof.
  destruct w. unfold set_position, set_stream, len. simpl. f_equal. lia.
Qed.

(** ** [seek] and sequences of calls *)

Lemma drain_preserves {S} `{RawStream S} (fuel : nat) :
  forall (w : wrapper S) o w',
    window_ok w -> drain fuel w = (o, w') ->
    window_ok w' /\ (cursor_ok w -> cursor_ok w') /\
    _max_buffer_size w' = _max_buffer_size w.
Proof.
  induction fuel as [|fuel IH]; intros w o w' Hok E.
  - inversion E; subst. auto.
  - simpl in E. unfold bind at 1, get at 1 in E. unfold bind at 1 in E.
    destruct (read (Some (_max_buffer_size w)) w) as [o1 w1] eqn:E1.
    destruct (read_preserves _ _ _ _ Hok E1) as (Hok1 & Hc1 & Hm1).
    destruct o1 as [[|c data]|e|]; try (inversion E; subst; auto; fail).
    destruct (IH _ _ _ Hok1 E) as (Hok' & Hc' & Hm').
    repeat split; try apply Hok'; [auto | congruence].
Qed.

Lemma seek_preserves {S} `{RawStream S} (fuel : nat) (offset whence : Z)
    (w : wrapper S) o w' :
  window_ok w -> seek fuel offset whence w = (o, w') ->
  window_ok w' /\ (backward offset whence -> cursor_ok w -> cursor_ok w') /\
  _max_buffer_size w' = _max_buffer_size w.
Proof.
  intros Hok E. unfold seek, bind at 1, get at 1 in E.
  destruct (Z.eqb_spec whence SEEK_SET) as [Hset|Hset].
  { destruct (Z.ltb_spec offset (_buffer_start w)) as [Hlo|Hlo];
      [inversion E; subst; auto|].
    destruct (Z.gtb_spec offset (_buffer_end w)) as [Hhi|Hhi];
      inversion E; subst; auto. }
  destruct (Z.eqb_spec whence SEEK_END) as [Hend|Hend];
    [|inversion E; subst; auto].
  destruct (offset >? _max_buffer_size w); [inversion E; subst; auto|].
  unfold bind in E.
  destruct (drain fuel w) as [o1 w1] eqn:E1.
  destruct (drain_preserves _ _ _ _ Hok E1) as (Hok1 & Hc1 & Hm1).
  destruct o1 as [[]|e|]; inversion E; subst; auto.
  split; [|split; [|exact Hm1]].
  - revert Hok1. destruct w1.
    unfold window_ok, window_consistent, window_bounded. simpl. auto.
  - unfold backward, cursor_ok in *. simpl. intros Hb Hc.
    specialize (Hb eq_refl). specialize (Hc1 Hc). lia.
Qed.

Lemma do_call_preserves {S} `{RawStream S} (fuel : nat) (c : call)
    (w : wrapper S) o w' :
  window_ok w -> do_call fuel c w = (o, w') ->
  window_ok w' /\ (backward_call c -> cursor_ok w -> cursor_ok w') /\
  _max_buffer_size w' = _max_buffer_size w.
Proof.
  intros Hok E. destruct c as [size|offset whence|]; simpl in *.
  - unfold bind in E. destruct (read size w) as [o1 w1] eqn:E1.
    destruct (read_preserves _ _ _ _ Hok E1) as (Hok1 & Hc1 & Hm1).
    destruct o1; inversion E; subst; auto.
  - unfold bind in E. destruct (seek fuel offset whence w) as [o1 w1] eqn:E1.
    destruct (seek_preserves _ _ _ _ _ _ Hok E1) as (Hok1 & Hc1 & Hm1).
    destruct o1; inversion E; subst; auto.
  - inversion E; subst. auto.
Qed.

Lemma run_preserves {S} `{RawStream S} (fuel : nat) (calls : list call) :
  forall w : wrapper S,
    window_ok w ->
    Forall (fun r => window_ok (snd r) /\
                     _max_buffer_size (snd r) = _max_buffer_size w)
           (run fuel calls w) /\
    (Forall backward_call calls -> cursor_ok w ->
     Forall (fun r => cursor_ok (snd r)) (run fuel calls w)).
Proof.
  induction calls as [|c rest IH]; intros w Hok; simpl.
  - split; constructor.
  - destruct (do_call fuel c w) as [o w1] eqn:E.
    destruct (do_call_preserves _ _ _ _ _ Hok E) as (Hok1 & Hc1 & Hm1).
    destruct (IH w1 Hok1) as [IH1 IH2].
    rewrite Hm1 in IH1.
    split.
    + destruct o; constructor; auto.
    + intros Hb Hc. inversion Hb; subst.
      destruct o; constructor; simpl; auto.
Qed.

Lemma window_ok_init {S} (stream : S) (max_buffer_size : Z) :
  0 <= max_buffer_size -> window_ok (init stream max_buffer_size).
Proof.
  intros Hmax.
  unfold window_ok, window_consistent, window_bounded, init. simpl. lia.
Qed.

(** ** The size of the window *)

(** C2: whatever calls of [read], [seek] and [tell] are made on a freshly
    constructed wrapper whose [max_buffer_size] is not negative, and whatever
    the stream returns (in particular a block larger than [max_buffer_size],
    which eviction has to split), after every call
    [buffer_end - buffer_start <= max_buffer_size]. *)
Theorem window_never_exceeds_max {S} `{RawStream S} (stream : S)
    (max_buffer_size : Z) (fuel : nat) (calls : list call) :
  0 <= max_buffer_size ->
  Forall (fun r => _buffer_end (snd r) - _buffer_start (snd r)
                   <= max_buffer_size)
         (run fuel calls (init stream max_buffer_size)).
Proof.
  intros Hmax.
  destruct (run_preserves fuel calls (init stream max_buffer_size)
              (window_ok_init stream max_buffer_size Hmax)) as [Hrun _].
  eapply Forall_impl; [|exact Hrun].
  intros [o w] [(_ & Hb & _) Hm]. unfold window_bounded in Hb.
  simpl in *. lia.
Qed.

(** A block of ten bytes is appended to a window of at most four, then the
    cursor is moved back and the stream drained. *)
Lemma window_never_exceeds_max_witness :
  0 <= 4 /\
  Forall (fun r => _buffer_end (snd r) - _buffer_start (snd r) <= 4)
         (run 5 [CallRead (Some 10); CallSeek 7 SEEK_SET; CallRead None;
                 CallSeek 0 SEEK_END]
              (init (b "0123456789abcdef"%string) 4)).
Proof.
  split; [lia|].
  apply (window_never_exceeds_max (b "0123456789abcdef"%string) 4 5). lia.
Defined.

(** ** The concrete scenario *)

(** C8: with [max_buffer_size = 4] over [b"0123456789"], [read(4)] returns
    [b"0123"] and [tell() == 4]; [read(2)] returns [b"45"], [tell() == 6], and
    the buffer holds [b"2345"] with [buffer_start == 2]; [seek(3)] succeeds
    and [tell() == 3]; the next [read(2)] returns [b"34"], taken from the
    buffer (the stream is as before), and [tell() == 5]. *)
Theorem scenario_trace (fuel : nat) :
  let '(r1, w1) := read (Some 4) scenario in
  let '(r2, w2) := read (Some 2) w1 in
  let '(r3, w3) := seek fuel 3 SEEK_SET w2 in
  let '(r4, w4) := read (Some 2) w3 in
  r1 = Returns (b "0123"%string) /\ tell w1 = 4 /\
  r2 = Returns (b "45"%string) /\ tell w2 = 6 /\
  join (_buffer w2) = b "2345"%string /\ _buffer_start w2 = 2 /\
  _buffer_end w2 - _buffer_start w2 = 4 /\
  r3 = Returns tt /\ tell w3 = 3 /\
  r4 = Returns (b "34"%string) /\ tell w4 = 5 /\
  _stream w4 = _stream w3 /\ _stream w3 = b "6789"%string.
Proof. vm_compute. repeat split; reflexivity. Qed.

(** ** Absolute seeks *)

(** C5: an absolute [seek(offset)] with [offset < buffer_start] or
    [offset > buffer_end] raises the window-exceeded error and leaves the
    wrapper (position, window offsets, blocks, stream) as it was. *)
Theorem seek_outside_window_raises {S} `{RawStream S} (fuel : nat)
    (offset : Z) (w : wrapper S) :
  offset < _buffer_start w \/ offset > _buffer_end w ->
  seek fuel offset SEEK_SET w
  = (Raises (Error (BufferExceeded offset (_buffer_start w) (_buffer_end w))),
     w).
Proof.
  intros Hout. unfold seek, bind, get. simpl.
  destruct (Z.ltb_spec offset (_buffer_start w)); [reflexivity|].
  destruct (Z.gtb_spec offset (_buffer_end w)); [reflexivity | lia].
Qed.

(** [seek(1)] once the window is [2, 6]. *)
Lemma seek_outside_window_raises_witness :
  (1 < _buffer_start scenario_read_6 \/ 1 > _buffer_end scenario_read_6) /\
  seek 0 1 SEEK_SET scenario_read_6
  = (Raises (Error (BufferExceeded 1 2 6)), scenario_read_6) /\
  tell scenario_read_6 = 6.
Proof.
  split; [left; vm_compute; reflexivity|].
  split; [|reflexivity].
  apply (seek_outside_window_raises 0 1 scenario_read_6).
  left. vm_compute. reflexivity.
Defined.

(** Whenever a backward seek is pending and the first block ends before
    the cursor, [read] raises and changes nothing. *)
Lemma read_beyond_first_block_raises {S} `{RawStream S} (size : option Z)
    (w : wrapper S) (data : bytes) (rest : list bytes) :
  _buffer w = data :: rest ->
  _position w < _buffer_end w ->
  _buffer_start w + len data < _position w ->
  read size w = (Raises (UnboundLocalError "read_size"%string), w).
Proof.
  intros Eb Hpending Hbefore. rewrite read_unfold.
  assert (E : forall amount,
             _read_from_buffer amount w
             = (Raises (UnboundLocalError "read_size"%string), w)).
  { intros amount. unfold _read_from_buffer, bind at 1, get at 1.
    destruct (Z.ltb_spec (_position w) (_buffer_end w)) as [_|]; [|lia].
    rewrite Eb. unfold bind. simpl. unfold bind, get.
    destruct (Z.geb_spec (_buffer_start w + len data) (_position w));
      [lia | reflexivity]. }
  rewrite E. reflexivity.
Qed.

(** C1, at the input where the code departs from it: in the scenario, after
    [read(4)] and [read(2)] the window is [2, 6] in the blocks [b"23"] and
    [b"45"]; [seek(5)] succeeds, and the [read(1)] that should replay
    [b"5"] raises [UnboundLocalError], because the first block ends before
    the cursor and [read_size] is used without having been assigned. *)
Theorem replay_in_second_block_raises (fuel : nat) :
  _buffer_start scenario_read_6 <= 5 <= _buffer_end scenario_read_6 /\
  _buffer scenario_read_6 = [b "23"%string; b "45"%string] /\
  exists w,
    seek fuel 5 SEEK_SET scenario_read_6 = (Returns tt, w) /\
    _buffer_end w - 5 = 1 /\
    read (Some 1) w = (Raises (UnboundLocalError "read_size"%string), w).
Proof.
  split; [vm_compute; split; discriminate|].
  split; [reflexivity|].
  eexists. split; [reflexivity|]. split; reflexivity.
Qed.

(** C7, at the input where the code departs from it: on a fresh wrapper
    over the four bytes [b"0123"], [seek(-1, os.SEEK_END)] returns with the
    cursor at 5 although only 4 bytes were read from the stream. *)
Theorem seek_end_negative_offset_passes_end :
  exists w,
    seek 3 (-1) SEEK_END (init (b "0123"%string) 4) = (Returns tt, w) /\
    _position w = 5 /\ _buffer_end w = 4 /\ _stream w = [] /\
    ~ _position w <= _buffer_end w.
Proof.
  eexists. split; [reflexivity|].
  repeat split. vm_compute. intros Hle. apply Hle. reflexivity.
Qed.

(** ** End-relative seeks *)

(** C6: [seek(offset, os.SEEK_END)] with [offset > max_buffer_size] raises
    the out-of-range error and leaves the wrapper as it was; the stream it
    holds is the one it held, so no read was made on it. *)
Theorem seek_end_beyond_max_raises {S} `{RawStream S} (fuel : nat)
    (offset : Z) (w : wrapper S) :
  offset > _max_buffer_size w ->
  seek fuel offset SEEK_END w
  = (Raises (Error (InvalidSeekEnd offset (_max_buffer_size w))), w).
Proof.
  intros Hout. unfold seek, bind, get. simpl.
  destruct (Z.gtb_spec offset (_max_buffer_size w)); [reflexivity | lia].
Qed.

(** Over a stream that counts its reads: none is made. *)
Lemma seek_end_beyond_max_raises_witness :
  let w := init (Counted 0 (b "0123456789"%string)) 4 in
  5 > _max_buffer_size w /\
  seek 20 5 SEEK_END w = (Raises (Error (InvalidSeekEnd 5 4)), w) /\
  calls_made (_stream w) = 0%nat.
Proof.
  intros w. split; [reflexivity|]. split; [|reflexivity].
  apply (seek_end_beyond_max_raises 20 5 w). reflexivity.
Defined.

(** ** Reads that do not reach the stream *)

(** C9: when the buffer part of [read(size)], [size >= 0], returns all the
    [size] bytes asked for, [read] returns these bytes and the stream is the
    one the wrapper held before the call: no read was made on it. *)
Theorem read_served_from_buffer {S} `{RawStream S} (size : Z)
    (w : wrapper S) (data : bytes) (w1 : wrapper S) :
  0 <= size ->
  _read_from_buffer size w = (Returns data, w1) ->
  size - len data = 0 ->
  read (Some size) w = (Returns data, w1) /\ _stream w1 = _stream w.
Proof.
  intros Hsize E Hall.
  pose proof (_read_from_buffer_frame _ _ _ _ E) as Hf.
  split; [|unfold same_window in Hf; rewrite Hf; reflexivity].
  rewrite read_unfold. unfold bytes_wanted.
  destruct (Z.ltb_spec size 0) as [|_]; [lia|].
  rewrite E. unfold from_stream, read_all_bytes.
  destruct (Z.ltb_spec size 0) as [|_]; [lia|].
  rewrite Hall. cbn [Z.eqb negb fst snd]. cbv zeta.
  rewrite set_position_same, app_nil_r. reflexivity.
Qed.

(** The replay of the scenario, over a stream that counts its reads. *)
Lemma read_served_from_buffer_witness :
  let w0 := init (Counted 0 (b "0123456789"%string)) 4 in
  let w := set_position (after_reads [Some 4; Some 2] w0) 3 in
  0 <= 2 /\
  _read_from_buffer 2 w = (Returns (b "34"%string), set_position w 5) /\
  2 - len (b "34"%string) = 0 /\
  read (Some 2) w = (Returns (b "34"%string), set_position w 5) /\
  calls_made (_stream (set_position w 5)) = calls_made (_stream w).
Proof.
  intros w0 w.
  split; [lia|]. split; [reflexivity|]. split; [reflexivity|].
  split; [|reflexivity].
  apply (read_served_from_buffer 2 w (b "34"%string) (set_position w 5));
    [lia | reflexivity | reflexivity].
Defined.

Lemma exhausted_read {S} `{RawStream S} (n : Z) (s : S) :
  exhausted s ->
  fst (stream_read n s) = [] /\ exhausted (snd (stream_read n s)).
Proof.
  intros He. split.
  - exact (He [] n).
  - intros ns m. exact (He (n :: ns) m).
Qed.

(** One read at the end of an exhausted stream. *)
Lemma read_at_end_of_stream {S} `{RawStream S} (size : option Z)
    (w : wrapper S) :
  _position w = _buffer_end w -> exhausted (_stream w) ->
  exists w',
    read size w = (Returns [], w') /\ same_attributes w w' /\
    exhausted (_stream w').
Proof.
  intros Hpos He. rewrite read_unfold.
  rewrite _read_from_buffer_nothing by lia.
  cbv zeta.
  assert (Hnew : forall r,
             fst (from_stream size r (_stream w)) = [] /\
             exhausted (snd (from_stream size r (_stream w)))).
  { intros r. unfold from_stream.
    destruct (read_all_bytes size); [apply exhausted_read; exact He|].
    destruct (negb (r =? 0)); [apply exhausted_read; exact He|].
    split; [reflexivity | exact He]. }
  destruct (Hnew (bytes_wanted size (_max_buffer_size w) - len []))
    as [Hnil Hex].
  rewrite Hnil. simpl _store_data. unfold ret.
  eexists. split; [reflexivity|]. split; [|exact Hex].
  unfold same_attributes, set_position, set_stream, len. simpl.
  destruct w; simpl. f_equal. lia.
Qed.

(** C10: with no backward seek pending ([position == buffer_end]) and the
    stream exhausted, [read(size)] returns [b''] for every [size] and leaves
    position, window offsets and blocks as they were, and so does every
    further read. *)
Theorem reads_at_end_of_stream {S} `{RawStream S}
    (sizes : list (option Z)) :
  forall w : wrapper S,
    _position w = _buffer_end w -> exhausted (_stream w) ->
    Forall (fun r => fst r = Returns [] /\
                     _position (snd r) = _position w /\
                     _buffer_start (snd r) = _buffer_start w /\
                     _buffer_end (snd r) = _buffer_end w /\
                     _buffer (snd r) = _buffer w)
           (reads sizes w).
Proof.
  induction sizes as [|size rest IH]; intros w Hpos He; simpl.
  - constructor.
  - destruct (read_at_end_of_stream size w Hpos He) as (w' & E & Hs & He').
    rewrite E. unfold same_attributes in Hs.
    assert (Hp : _position w' = _position w) by (rewrite Hs; reflexivity).
    assert (Hbs : _buffer_start w' = _buffer_start w)
      by (rewrite Hs; reflexivity).
    assert (Hbe : _buffer_end w' = _buffer_end w) by (rewrite Hs; reflexivity).
    assert (Hb : _buffer w' = _buffer w) by (rewrite Hs; reflexivity).
    constructor; [simpl; auto|].
    rewrite <- Hp, <- Hbs, <- Hbe, <- Hb. apply IH; [congruence | exact He'].
Qed.

Lemma exhausted_nil : exhausted ([] : bytes).
Proof.
  assert (Hafter : forall ns, stream_after ns ([] : bytes) = []).
  { induction ns as [|n ns IH]; [reflexivity|].
    simpl. unfold bytes_read. destruct (n <? 0); simpl; [exact IH|].
    rewrite skipn_nil. exact IH. }
  intros ns n. rewrite Hafter. simpl. unfold bytes_read.
  destruct (n <? 0); simpl; [reflexivity | apply firstn_nil].
Qed.

(** Reads of every kind once the ten bytes of the scenario were read. *)
Lemma reads_at_end_of_stream_witness :
  let w := after_reads [None] scenario in
  _position w = _buffer_end w /\ _stream w = [] /\
  Forall (fun r => fst r = Returns [] /\
                   _position (snd r) = _position w /\
                   _buffer_start (snd r) = _buffer_start w /\
                   _buffer_end (snd r) = _buffer_end w /\
                   _buffer (snd r) = _buffer w)
         (reads [Some 3; None; Some 0; Some (-1)] w).
Proof.
  intros w. split; [reflexivity|]. split; [reflexivity|].
  apply (reads_at_end_of_stream [Some 3; None; Some 0; Some (-1)] w);
    [reflexivity | exact exhausted_nil].
Defined.

(** ** Reading forward over a byte string *)

Lemma firstn_plus {A} (i j : nat) (l : list A) :
  firstn i l ++ firstn j (skipn i l) = firstn (i + j) l.
Proof.
  revert l. induction i as [|i IH]; intros l; [reflexivity|].
  destruct l as [|x l]; simpl.
  - rewrite firstn_nil. reflexivity.
  - rewrite IH. reflexivity.
Qed.

Lemma bytes_read_nil (n : Z) : bytes_read n [] = ([], []).
Proof.
  unfold bytes_read. destruct (n <? 0); [reflexivity|].
  rewrite firstn_nil, skipn_nil. reflexivity.
Qed.

(** What is returned and what is left make up the stream. *)
Lemma bytes_read_split (n : Z) (s : bytes) :
  fst (bytes_read n s) ++ snd (bytes_read n s) = s.
Proof.
  unfold bytes_read. destruct (n <? 0); simpl.
  - apply app_nil_r.
  - apply firstn_skipn.
Qed.

Lemma bytes_read_len (n : Z) (s : bytes) :
  len (fst (bytes_read n s)) + len (snd (bytes_read n s)) = len s.
Proof. rewrite <- len_app, bytes_read_split. reflexivity. Qed.

(** A read of a positive size on a stream that is not at its end returns
    at least one byte and leaves fewer. *)
Lemma bytes_read_some (n : Z) (c : byte) (s : bytes) :
  0 < n ->
  exists d,
    fst (bytes_read n (c :: s)) = c :: d /\
    (List.length (snd (bytes_read n (c :: s))) < List.length (c :: s))%nat.
Proof.
  intros Hn. unfold bytes_read.
  destruct (Z.ltb_spec n 0) as [|_]; [lia|].
  destruct (Z.to_nat n) as [|k] eqn:Ek; [lia|].
  simpl. eexists. split; [reflexivity|].
  rewrite length_skipn. lia.
Qed.

Lemma from_stream_bytes (size : option Z) (max_buffer_size : Z) (s : bytes) :
  from_stream size (bytes_wanted size max_buffer_size - len []) s
  = bytes_read (request size) s.
Proof.
  unfold from_stream, bytes_wanted, read_all_bytes, request.
  destruct size as [n|]; [|reflexivity].
  destruct (Z.ltb_spec n 0) as [Hneg|Hpos].
  - simpl. unfold bytes_read.
    destruct (Z.ltb_spec n 0); [reflexivity | lia].
  - replace (n - len []) with n by (unfold len; simpl; lia).
    destruct (Z.eqb_spec n 0) as [->|]; reflexivity.
Qed.

(** One forward read: it returns what the stream returns. *)
Lemma read_forward (total max_buffer_size : Z) (size : option Z)
    (w : wrapper bytes) :
  reading total max_buffer_size w ->
  exists w',
    read size w = (Returns (fst (bytes_read (request size) (_stream w))), w')
    /\ _stream w' = snd (bytes_read (request size) (_stream w))
    /\ reading total max_buffer_size w'.
Proof.
  intros (Hok & Hpos & Htot & Hmax & Hnn).
  destruct (read_returns size w [] w Hok)
    as (w' & E & Hok' & Hs & Hp & He & Hm).
  { apply _read_from_buffer_nothing. lia. }
  rewrite from_stream_bytes in *. simpl in E.
  exists w'. split; [exact E|]. split; [exact Hs|].
  unfold reading. rewrite Hs, Hp, He, Hm.
  pose proof (bytes_read_len (request size) (_stream w)).
  pose proof (len_nonneg (fst (bytes_read (request size) (_stream w)))).
  split; [exact Hok'|]. repeat split; lia.
Qed.




Lemma reading_init (bs : bytes) (max_buffer_size : Z) :
  0 <= max_buffer_size ->
  reading (len bs) max_buffer_size (init bs max_buffer_size).
Proof.
  intros Hmax. unfold reading. split; [apply window_ok_init; exact Hmax|].
  simpl. repeat split. lia.
Qed.



(** ** Draining the stream *)

Lemma Forall_last {A} (P : A -> Prop) (l : list A) (d : A) :
  Forall P l -> P d -> P (last l d).
Proof.
  induction l as [|x l IH]; intros Hl Hd; [exact Hd|].
  inversion Hl; subst. destruct l as [|y l]; [assumption|].
  apply IH; assumption.
Qed.

(** A property of the attributes other than [_position] that [read] keeps
    is kept by every call. *)
Section Invariant.

Context {S : Type} `{RawStream S}.
Variable I : wrapper S -> Prop.
Hypothesis I_read :
  forall size w o w', window_ok w -> I w -> read size w = (o, w') -> I w'.
Hypothesis I_position : forall w p, I w -> I (set_position w p).

Lemma drain_invariant (fuel : nat) :
  forall w o w', window_ok w -> I w -> drain fuel w = (o, w') -> I w'.
Proof.
  induction fuel as [|fuel IH]; intros w o w' Hok Hw E.
  - inversion E; subst. exact Hw.
  - simpl in E. unfold bind at 1, get at 1 in E. unfold bind at 1 in E.
    destruct (read (Some (_max_buffer_size w)) w) as [o1 w1] eqn:E1.
    pose proof (I_read _ _ _ _ Hok Hw E1) as Hw1.
    destruct (read_preserves _ _ _ _ Hok E1) as (Hok1 & _).
    destruct o1 as [[|c data]|e|]; try (inversion E; subst; exact Hw1).
    exact (IH _ _ _ Hok1 Hw1 E).
Qed.

Lemma seek_invariant (fuel : nat) (offset whence : Z) (w : wrapper S) o w' :
  window_ok w -> I w -> seek fuel offset whence w = (o, w') -> I w'.
Proof.
  intros Hok Hw E. unfold seek, bind at 1, get at 1 in E.
  destruct (whence =? SEEK_SET).
  { destruct (_ || _); inversion E; subst; auto. }
  destruct (whence =? SEEK_END); [|inversion E; subst; exact Hw].
  destruct (offset >? _max_buffer_size w); [inversion E; subst; exact Hw|].
  unfold bind in E. destruct (drain fuel w) as [o1 w1] eqn:E1.
  pose proof (drain_invariant _ _ _ _ Hok Hw E1) as Hw1.
  destruct o1 as [[]|e|]; inversion E; subst; auto.
Qed.

Lemma do_call_invariant (fuel : nat) (c : call) (w : wrapper S) o w' :
  window_ok w -> I w -> do_call fuel c w = (o, w') -> I w'.
Proof.
  intros Hok Hw E. destruct c as [size|offset whence|]; simpl in E.
  - unfold bind in E. destruct (read size w) as [o1 w1] eqn:E1.
    pose proof (I_read _ _ _ _ Hok Hw E1).
    destruct o1; inversion E; subst; assumption.
  - unfold bind in E. destruct (seek fuel offset whence w) as [o1 w1] eqn:E1.
    pose proof (seek_invariant _ _ _ _ _ _ Hok Hw E1).
    destruct o1; inversion E; subst; assumption.
  - inversion E; subst. exact Hw.
Qed.

Lemma run_invariant (fuel : nat) (calls : list call) :
  forall w, window_ok w -> I w ->
            Forall (fun r => I (snd r)) (run fuel calls w).
Proof.
  induction calls as [|c rest IH]; intros w Hok Hw; simpl; [constructor|].
  destruct (do_call fuel c w) as [o w1] eqn:E.
  pose proof (do_call_invariant _ _ _ _ _ Hok Hw E) as Hw1.
  destruct (do_call_preserves _ _ _ _ _ Hok E) as (Hok1 & _).
  destruct o; constructor; auto.
Qed.

End Invariant.

Lemma from_stream_len (size : option Z) (remaining : Z) (s : bytes) :
  len (fst (from_stream size remaining s))
  + len (snd (from_stream size remaining s)) = len s.
Proof.
  unfold from_stream. destruct (read_all_bytes size).
  - apply bytes_read_len.
  - destruct (negb (remaining =? 0)); [apply bytes_read_len|].
    simpl. unfold len. simpl. lia.
Qed.

(** Over a byte string, every call keeps [consumed]. *)
Lemma read_consumed (total : Z) (size : option Z) (w : wrapper bytes) o w' :
  window_ok w -> consumed total w -> read size w = (o, w') ->
  consumed total w'.
Proof.
  unfold consumed. intros Hok [Htot Hnn] E.
  destruct (_read_from_buffer (bytes_wanted size (_max_buffer_size w)) w)
    as [o1 w1] eqn:E1.
  pose proof (_read_from_buffer_frame _ _ _ _ E1) as Hf.
  unfold same_window in Hf.
  assert ((forall data, o1 <> Returns data) -> consumed total w').
  { intros Hne.
    destruct (read_not_returns size w o1 w1 E1 Hne) as (o' & E2 & _).
    rewrite E in E2. inversion E2; subst. unfold consumed. rewrite Hf.
    simpl. auto. }
  destruct o1 as [data|e|]; try (apply H; discriminate).
  destruct (read_returns size w data w1 Hok E1)
    as (w2 & E2 & _ & Hs & _ & He & _).
  rewrite E in E2. inversion E2; subst. unfold consumed. rewrite Hs, He.
  pose proof (from_stream_len size
                (bytes_wanted size (_max_buffer_size w) - len data)
                (_stream w)).
  pose proof (len_nonneg
                (fst (from_stream size
                        (bytes_wanted size (_max_buffer_size w) - len data)
                        (_stream w)))).
  lia.
Qed.

Lemma consumed_final (bs : bytes) (max_buffer_size : Z) (fuel : nat)
    (calls : list call) :
  0 <= max_buffer_size ->
  let w := final fuel calls (init bs max_buffer_size) in
  window_ok w /\ _max_buffer_size w = max_buffer_size /\
  consumed (len bs) w.
Proof.
  intros Hmax w.
  pose proof (window_ok_init bs max_buffer_size Hmax) as Hok.
  assert (Hc : consumed (len bs) (init bs max_buffer_size))
    by (unfold consumed; simpl; lia).
  destruct (run_preserves fuel calls _ Hok) as [Hrun _].
  pose proof (run_invariant (consumed (len bs)) (read_consumed (len bs))
                (fun w p Hw => Hw) fuel calls _ Hok Hc) as Hrun2.
  subst w. unfold final.
  apply Forall_last with (P := fun w => window_ok w /\
                                        _max_buffer_size w = max_buffer_size /\
                                        consumed (len bs) w);
    [|auto].
  apply Forall_map.
  rewrite Forall_forall in *. intros r Hr.
  destruct (Hrun r Hr) as [H1 H2]. specialize (Hrun2 r Hr).
  simpl in H2. auto.
Qed.

(** From the [reading] state, with a positive [max_buffer_size], the loop
    of [seek] reads the stream to its end and stops with the cursor at the
    total length; one read more than there are bytes left is enough. *)
Lemma drain_reading (total max_buffer_size : Z) (fuel : nat) :
  forall w : wrapper bytes,
    0 < max_buffer_size ->
    reading total max_buffer_size w ->
    (List.length (_stream w) < fuel)%nat ->
    exists w',
      drain fuel w = (Returns tt, w') /\ _stream w' = [] /\
      _position w' = total.
Proof.
  induction fuel as [|fuel IH]; intros w Hmax Hw Hfuel; [lia|].
  destruct (read_forward _ _ (Some (_max_buffer_size w)) w Hw)
    as (w1 & E & Hs & Hw1).
  simpl drain. unfold bind at 1, get at 1. unfold bind at 1. rewrite E.
  assert (Hm : _max_buffer_size w = max_buffer_size) by apply Hw.
  simpl request in *. rewrite Hm in *.
  destruct (_stream w) as [|c s] eqn:Es.
  - rewrite bytes_read_nil in *. simpl in *.
    exists w1. split; [reflexivity|]. split; [exact Hs|].
    destruct Hw1 as (_ & _ & Htot & _). rewrite Hs in Htot.
    unfold len in Htot. simpl in Htot. lia.
  - destruct (bytes_read_some max_buffer_size c s Hmax) as (d & Ed & Hlt).
    unfold request. rewrite Ed. apply IH; [exact Hmax | exact Hw1 |].
    rewrite Hs. lia.
Qed.

(** Over a stream of [len bs] bytes and with a positive
    [max_buffer_size], in every state that calls on a fresh wrapper lead to
    and in which no backward seek is pending ([position == buffer_end], as
    after reads), [seek(offset, os.SEEK_END)] with
    [0 <= offset <= max_buffer_size] returns once the stream is read to its
    end, and [tell()] is then [len bs - offset]; for the loop that drains
    the stream, one read more than the length of the stream is enough. *)
Theorem seek_end_tell (bs : bytes) (max_buffer_size : Z)
    (calls : list call) (offset : Z) (fuel0 fuel : nat) :
  let w := final fuel0 calls (init bs max_buffer_size) in
  0 < max_buffer_size ->
  0 <= offset <= max_buffer_size ->
  (List.length bs < fuel)%nat ->
  _position w = _buffer_end w ->
  exists w',
    seek fuel offset SEEK_END w = (Returns tt, w') /\
    _stream w' = [] /\ tell w' = len bs - offset.
Proof.
  intros w Hmax Hoff Hfuel Hpos.
  destruct (consumed_final bs max_buffer_size fuel0 calls) as (Hok & Hm & Hc);
    [lia|].
  fold w in Hok, Hm, Hc. destruct Hc as [Htot Hnn].
  assert (Hw : reading (len bs) max_buffer_size w).
  { unfold reading. repeat split; try apply Hok; try assumption; lia. }
  destruct (drain_reading _ _ fuel w Hmax Hw) as (w' & E & Hs & Hp).
  { pose proof (len_nonneg (_stream w)). unfold len in *. lia. }
  unfold seek, bind at 1, get at 1. simpl.
  destruct (Z.gtb_spec offset (_max_buffer_size w)) as [|_]; [lia|].
  unfold bind, put. rewrite E.
  eexists. split; [reflexivity|]. unfold tell. simpl. split; [exact Hs | lia].
Qed.

(** In the scenario: [seek(3, os.SEEK_END)] after six of the ten bytes were
    read, three of them a second time; and [seek(0, os.SEEK_END)] after
    [read(4)] and [read(2)]. *)
Lemma seek_end_tell_witness :
  let calls := [CallRead (Some 4); CallRead (Some 2); CallSeek 3 SEEK_SET;
                CallRead (Some 3)] in
  let w := final 0 calls scenario in
  0 < 4 /\ 0 <= 3 <= 4 /\ (List.length (b "0123456789"%string) < 11)%nat /\
  _position w = _buffer_end w /\
  (exists w',
     seek 11 3 SEEK_END w = (Returns tt, w') /\
     _stream w' = [] /\ tell w' = len (b "0123456789"%string) - 3) /\
  tell (snd (seek 11 0 SEEK_END scenario_read_6)) = 10.
Proof.
  intros calls w.
  split; [lia|]. split; [lia|]. split; [simpl; lia|].
  split; [reflexivity|]. split; [|reflexivity].
  apply (seek_end_tell (b "0123456789"%string) 4 calls 3 0 11);
    [lia | lia | simpl; lia | reflexivity].
Defined.

(** With a backward seek pending into a block after the first, the loop
    of an end-relative seek raises at its first [read]. *)
Lemma seek_end_pending_raises {S} `{RawStream S} (offset : Z) (fuel : nat)
    (w : wrapper S) (data : bytes) (rest : list bytes) :
  _buffer w = data :: rest ->
  _position w < _buffer_end w ->
  _buffer_start w + len data < _position w ->
  offset <= _max_buffer_size w ->
  seek (Datatypes.S fuel) offset SEEK_END w
  = (Raises (UnboundLocalError "read_size"%string), w).
Proof.
  intros Eb Hpending Hbefore Hoff.
  unfold seek, bind at 1, get at 1.
  change (SEEK_END =? SEEK_SET) with false.
  change (SEEK_END =? SEEK_END) with true. cbv iota.
  destruct (Z.gtb_spec offset (_max_buffer_size w)) as [|_]; [lia|].
  unfold bind at 1. simpl drain. unfold bind at 1, get at 1.
  unfold bind at 1.
  rewrite (read_beyond_first_block_raises _ w data rest Eb Hpending Hbefore).
  reflexivity.
Qed.

(** C4, at the input where the code departs from it: in the scenario (ten
    bytes, [max_buffer_size = 4]), after [read(4)], [read(2)] and
    [seek(5)], which succeeds, the window is [2, 6] in the blocks [b"23"] and
    [b"45"] and the cursor is in the second block.  [seek(0, os.SEEK_END)],
    with [0 <= 0 <= max_buffer_size], does not drain the stream and does not
    leave [tell()] at [10 - 0]: the first [read] of its loop raises
    [UnboundLocalError], the four bytes [b"6789"] are still unread and the
    cursor is still at 5. *)
Theorem seek_end_with_pending_seek_raises (fuel : nat) :
  let calls := [CallRead (Some 4); CallRead (Some 2); CallSeek 5 SEEK_SET] in
  let w := final 0 calls scenario in
  map fst (run 0 calls scenario)
  = [Returns (VBytes (b "0123"%string)); Returns (VBytes (b "45"%string));
     Returns VNone] /\
  _buffer w = [b "23"%string; b "45"%string] /\
  _buffer_start w = 2 /\ _buffer_end w = 6 /\
  0 <= 0 <= _max_buffer_size w /\
  seek (Datatypes.S fuel) 0 SEEK_END w
  = (Raises (UnboundLocalError "read_size"%string), w) /\
  _stream w = b "6789"%string /\ tell w = 5 /\
  tell w <> len (b "0123456789"%string) - 0.
Proof.
  intros calls w.
  split; [reflexivity|]. split; [reflexivity|]. split; [reflexivity|].
  split; [reflexivity|]. split; [vm_compute; split; discriminate|].
  split; [|split; [reflexivity|split; [reflexivity|]]].
  - apply (seek_end_pending_raises 0 fuel w (b "23"%string)
             [b "45"%string]);
      [reflexivity | reflexivity | reflexivity | vm_compute; discriminate].
  - vm_compute. discriminate.
Qed.

(** Calls that are all reads leave no backward seek pending. *)
Lemma reading_run (total max_buffer_size : Z) (fuel : nat)
    (sizes : list (option Z)) :
  forall w : wrapper bytes,
    reading total max_buffer_size w ->
    Forall (fun r => reading total max_buffer_size (snd r))
           (run fuel (map CallRead sizes) w).
Proof.
  induction sizes as [|size rest IH]; intros w Hw; simpl; [constructor|].
  destruct (read_forward _ _ size w Hw) as (w' & E & _ & Hw').
  unfold bind. rewrite E. unfold ret. constructor; [exact Hw'|].
  apply IH. exact Hw'.
Qed.

Lemma no_seek_pending_after_reads (bs : bytes) (max_buffer_size : Z)
    (fuel : nat) (sizes : list (option Z)) :
  0 <= max_buffer_size ->
  let w := final fuel (map CallRead sizes) (init bs max_buffer_size) in
  _position w = _buffer_end w.
Proof.
  intros Hmax w. subst w. unfold final.
  pose proof (reading_init bs max_buffer_size Hmax) as Hw.
  apply Forall_last with (P := fun w => _position w = _buffer_end w);
    [|apply Hw].
  apply Forall_map.
  eapply Forall_impl; [|exact (reading_run _ _ fuel sizes _ Hw)].
  intros r Hr. apply Hr.
Qed.

(** ** The cursor and the end of the window *)

(** As long as the end-relative seeks are given distances that are not
    negative, the cursor never passes [buffer_end]: a negative distance is
    the only way past it. *)
Theorem cursor_within_window {S} `{RawStream S} (stream : S)
    (max_buffer_size : Z) (fuel : nat) (calls : list call) :
  0 <= max_buffer_size ->
  Forall backward_call calls ->
  Forall (fun r => _position (snd r) <= _buffer_end (snd r))
         (run fuel calls (init stream max_buffer_size)).
Proof.
  intros Hmax Hback.
  destruct (run_preserves fuel calls (init stream max_buffer_size)
              (window_ok_init stream max_buffer_size Hmax)) as [_ Hrun].
  apply Hrun; [exact Hback|]. unfold cursor_ok, init. simpl. lia.
Qed.

(** The bound [_store_data] gives to its loop is never reached, whatever
    the attributes are. *)
Lemma _store_data_loop_fuel {S} (fuel : nat) :
  forall w : wrapper S,
    (List.length (_buffer w) < fuel)%nat ->
    fst (_store_data_loop fuel w) <> OutOfFuel.
Proof.
  induction fuel as [|fuel IH]; intros w Hfuel; [lia|].
  destruct w as [st buf mx bs pos be]. simpl in Hfuel. simpl.
  run_monad.
  destruct (be - bs >? mx); [|discriminate].
  destruct buf as [|oldest rest]; [discriminate|].
  simpl in Hfuel.
  destruct oldest as [|c oldest].
  - apply IH. simpl. lia.
  - set (old := c :: oldest).
    cbn [_stream _buffer _max_buffer_size _buffer_start _position
         _buffer_end].
    destruct (Z.geb_spec (mx - (be - (bs + len old))) 1) as [Hre|Hre].
    + destruct fuel as [|fuel]; [lia|].
      rewrite _store_data_loop_done; [discriminate|].
      unfold window_bounded. simpl. lia.
    + apply IH. simpl. lia.
Qed.

(** ** Further properties of [seek] *)

(** A [whence] that is neither [os.SEEK_SET] nor [os.SEEK_END] raises the
    invalid-mode error, whatever the offset, and nothing is changed. *)
Theorem seek_invalid_mode_raises {S} `{RawStream S} (fuel : nat)
    (offset whence : Z) (w : wrapper S) :
  whence <> SEEK_SET -> whence <> SEEK_END ->
  seek fuel offset whence w
  = (Raises (Error (InvalidSeekMode whence offset)), w).
Proof.
  intros Hset Hend. unfold seek, bind, get.
  destruct (Z.eqb_spec whence SEEK_SET); [contradiction|].
  destruct (Z.eqb_spec whence SEEK_END); [contradiction|].
  reflexivity.
Qed.

(** [os.SEEK_CUR] over a stream that counts its reads. *)
Lemma seek_invalid_mode_raises_witness :
  let w := init (Counted 0 (b "0123456789"%string)) 4 in
  1 <> SEEK_SET /\ 1 <> SEEK_END /\
  seek 20 0 1 w = (Raises (Error (InvalidSeekMode 1 0)), w).
Proof.
  intros w. split; [discriminate|]. split; [discriminate|].
  apply (seek_invalid_mode_raises 20 0 1 w); discriminate.
Defined.

(** An absolute seek to an offset of the window, its two ends included,
    returns and moves the cursor there; the window and the stream are as
    before. *)
Theorem seek_inside_window_returns {S} `{RawStream S} (fuel : nat)
    (offset : Z) (w : wrapper S) :
  _buffer_start w <= offset <= _buffer_end w ->
  seek fuel offset SEEK_SET w = (Returns tt, set_position w offset).
Proof.
  intros Hin. unfold seek, bind, get, put. simpl.
  destruct (Z.ltb_spec offset (_buffer_start w)); [lia|].
  destruct (Z.gtb_spec offset (_buffer_end w)); [lia | reflexivity].
Qed.

Lemma seek_inside_window_returns_witness :
  _buffer_start scenario_read_6 <= 2 <= _buffer_end scenario_read_6 /\
  seek 0 2 SEEK_SET scenario_read_6
  = (Returns tt, set_position scenario_read_6 2) /\
  tell (set_position scenario_read_6 2) = 2.
Proof.
  split; [vm_compute; split; discriminate|]. split; [|reflexivity].
  apply (seek_inside_window_returns 0 2 scenario_read_6).
  vm_compute. split; discriminate.
Defined.

(** With no backward seek pending, [read(0)] returns [b''] and changes
    nothing: the stream is not read. *)
Lemma read_zero_nothing {S} `{RawStream S} (w : wrapper S) :
  _buffer_end w <= _position w -> read (Some 0) w = (Returns [], w).
Proof.
  intros Hpos. rewrite read_unfold. simpl bytes_wanted.
  rewrite _read_from_buffer_nothing by exact Hpos.
  unfold from_stream. simpl. unfold ret.
  rewrite set_position_same. reflexivity.
Qed.

(** With [max_buffer_size == 0] the loop of an end-relative seek asks for
    no bytes and stops at once: when no backward seek is pending,
    [seek(0, os.SEEK_END)] leaves the stream unread and the cursor where it
    was. *)
Theorem seek_end_zero_buffer {S} `{RawStream S} (fuel : nat)
    (w : wrapper S) :
  _max_buffer_size w = 0 -> _buffer_end w <= _position w ->
  seek (Datatypes.S fuel) 0 SEEK_END w = (Returns tt, w).
Proof.
  intros Hmax Hpos.
  assert (Ed : drain (Datatypes.S fuel) w = (Returns tt, w)).
  { simpl. unfold bind at 1, get at 1. rewrite Hmax. unfold bind.
    rewrite read_zero_nothing by exact Hpos. reflexivity. }
  unfold seek, bind at 1, get at 1.
  change (SEEK_END =? SEEK_SET) with false.
  change (SEEK_END =? SEEK_END) with true. cbv iota.
  rewrite Hmax. change (0 >? 0) with false. cbv iota.
  unfold bind. rewrite Ed. unfold put, set_position.
  destruct w; simpl. do 2 f_equal. lia.
Qed.

Lemma seek_end_zero_buffer_witness :
  let w := init (b "0123"%string) 0 in
  _max_buffer_size w = 0 /\ _buffer_end w <= _position w /\
  seek 1 0 SEEK_END w = (Returns tt, w) /\
  tell w = 0 /\ _stream w = b "0123"%string.
Proof.
  intros w. split; [reflexivity|]. split; [simpl; lia|].
  split; [|split; reflexivity].
  apply (seek_end_zero_buffer 0 w); [reflexivity | simpl; lia].
Defined.

(** ** What [_store_data] keeps *)

Lemma skipn_app_le {A} (n : nat) (l1 l2 : list A) :
  (n <= List.length l1)%nat -> skipn n (l1 ++ l2) = skipn n l1 ++ l2.
Proof.
  intros Hn. rewrite skipn_app.
  replace (n - List.length l1)%nat with 0%nat by lia. reflexivity.
Qed.

Lemma skipn_app_ge {A} (n : nat) (l1 l2 : list A) :
  (List.length l1 <= n)%nat ->
  skipn n (l1 ++ l2) = skipn (n - List.length l1) l2.
Proof.
  intros Hn. rewrite skipn_app, skipn_all2 by exact Hn. reflexivity.
Qed.

Lemma join_cons (x : bytes) (xs : list bytes) : join (x :: xs) = x ++ join xs.
Proof. reflexivity. Qed.

Lemma total_len_nonneg' (xs : list bytes) : 0 <= total_len xs.
Proof.
  induction xs as [|x xs IH]; simpl; [lia | pose proof (len_nonneg x); lia].
Qed.

(** The loop of [_store_data] on a consistent window: [buffer_start] moves
    up to [buffer_end - max_buffer_size] when it was below, the blocks lose
    the bytes before it and nothing else, and no empty block appears. *)
Lemma _store_data_loop_exact {S} (fuel : nat) :
  forall w : wrapper S,
    window_consistent w -> 0 <= _max_buffer_size w ->
    (List.length (_buffer w) < fuel)%nat ->
    exists w',
      _store_data_loop fuel w = (Returns tt, w') /\
      _buffer_start w'
      = Z.max (_buffer_start w) (_buffer_end w - _max_buffer_size w) /\
      join (_buffer w')
      = skipn (Z.to_nat (_buffer_start w' - _buffer_start w))
              (join (_buffer w)) /\
      (Forall (fun d => d <> []) (_buffer w) ->
       Forall (fun d => d <> []) (_buffer w')).
Proof.
  induction fuel as [|fuel IH]; intros w Hc Hmax Hfuel; [lia|].
  destruct (Z.gtb_spec (_buffer_end w - _buffer_start w) (_max_buffer_size w))
    as [Hgt|Hle].
  2:{ exists w. rewrite _store_data_loop_done by exact Hle.
      split; [reflexivity|]. split; [lia|].
      rewrite Z.sub_diag. split; [reflexivity | auto]. }
  destruct w as [st buf mx bs pos be]. unfold window_consistent in *.
  simpl in *.
  destruct buf as [|oldest rest].
  { simpl in Hc. lia. }
  simpl in Hc, Hfuel.
  run_monad.
  destruct (Z.gtb_spec (be - bs) mx) as [_|]; [|lia].
  pose proof (total_len_nonneg' rest) as Hrest.
  destruct oldest as [|c oldest].
  - (* an empty block is dropped *)
    destruct (IH (Wrapper st rest mx (bs + len []) pos be))
      as (w' & E & Hs & Hj & Hne); simpl; try lia.
    exists w'. simpl in *. rewrite E.
    split; [reflexivity|]. unfold len in *. simpl in *.
    split; [lia|]. split.
    + rewrite Hj. f_equal. lia.
    + intros Hall. inversion Hall; subst. auto.
  - set (old := c :: oldest) in *.
    cbn [_stream _buffer _max_buffer_size _buffer_start _position
         _buffer_end].
    destruct (Z.geb_spec (mx - (be - (bs + len old))) 1) as [Hre|Hre].
    + (* the tail of the block is put back *)
      destruct fuel as [|fuel]; [lia|].
      rewrite _store_data_loop_done.
      2:{ unfold window_bounded. simpl. lia. }
      eexists. split; [reflexivity|]. projections.
      split; [lia|]. split.
      * rewrite !join_cons. unfold slice_from, slice_bound.
        destruct (Z.ltb_spec (- (mx - (be - (bs + len old)))) 0); [|lia].
        rewrite skipn_app_le by (unfold len in *; lia).
        do 2 f_equal. unfold len in *. lia.
      * intros Hall. inversion Hall; subst. constructor; [|assumption].
        intros Enil. apply (f_equal len) in Enil.
        rewrite len_slice_from_tail in Enil; [|lia].
        change (len []) with 0 in Enil. lia.
    + destruct (IH (Wrapper st rest mx (bs + len old) pos be))
        as (w' & E & Hs & Hj & Hne); projections; try lia.
      exists w'. rewrite E.
      split; [reflexivity|]. split; [lia|]. split.
      * rewrite Hj, join_cons.
        rewrite skipn_app_ge by (unfold len in *; lia).
        f_equal. unfold len in *. lia.
      * intros Hall. inversion Hall; subst. auto.
Qed.

Lemma join_app (xs ys : list bytes) : join (xs ++ ys) = join xs ++ join ys.
Proof. unfold join. apply concat_app. Qed.

(** What [_store_data] does to a well-formed window. *)
Lemma _store_data_exact {S} (data : bytes) (w : wrapper S) :
  window_ok w ->
  exists w',
    _store_data data w = (Returns tt, w') /\
    _buffer_end w' = _buffer_end w + len data /\
    _buffer_start w'
    = Z.max (_buffer_start w) (_buffer_end w' - _max_buffer_size w) /\
    join (_buffer w')
    = skipn (Z.to_nat (_buffer_start w' - _buffer_start w))
            (join (_buffer w) ++ data) /\
    _stream w' = _stream w /\ _position w' = _position w /\
    _max_buffer_size w' = _max_buffer_size w /\
    window_ok w' /\
    (Forall (fun d => d <> []) (_buffer w) ->
     Forall (fun d => d <> []) (_buffer w')).
Proof.
  intros Hok.
  destruct (_store_data_spec data w Hok) as (w' & E & Hok' & Hs & Hp & He & Hm).
  exists w'. split; [exact E|]. split; [exact He|].
  destruct Hok as (Hc & Hb & Hmax).
  unfold window_consistent, window_bounded in *.
  destruct data as [|c data].
  - simpl in E. inversion E; subst w'. change (len []) with 0.
    split; [lia|]. rewrite Z.sub_diag, app_nil_r.
    repeat split; auto.
  - set (d := c :: data) in *. unfold _store_data in E.
    change (match d with [] => ret tt | _ :: _ => ?k end) with k in E.
    revert E. run_monad. intros E.
    match type of E with context [_store_data_loop ?f ?w0] =>
      destruct (_store_data_loop_exact f w0) as (w2 & E2 & Hs2 & Hj2 & Hne2)
    end; projections; try lia.
    { unfold window_consistent. projections. rewrite total_len_app.
      simpl. lia. }
    rewrite E in E2. inversion E2; subst w2. clear E2.
    rewrite join_app in Hj2. change (join [d]) with (d ++ []) in Hj2.
    rewrite app_nil_r in Hj2.
    split; [lia|]. split; [exact Hj2|].
    repeat split; try assumption; try apply Hok'.
    intros Hall. apply Hne2. apply Forall_app. split; [exact Hall|].
    constructor; [discriminate | constructor].
Qed.

(** [_store_data] on a well-formed window returns; [buffer_end] moves by
    the length of the data, [buffer_start] moves up to
    [buffer_end - max_buffer_size] when it was below, and the blocks are the
    old ones followed by the data, less the bytes before the new
    [buffer_start]: the most recent bytes are the ones kept.  The cursor, the
    stream and [max_buffer_size] are not touched, the window is well formed
    again, and no empty block appears. *)
Theorem _store_data_keeps_tail {S} (data : bytes) (w : wrapper S) :
  window_ok w ->
  exists w',
    _store_data data w = (Returns tt, w') /\
    _buffer_end w' = _buffer_end w + len data /\
    _buffer_start w'
    = Z.max (_buffer_start w) (_buffer_end w' - _max_buffer_size w) /\
    join (_buffer w')
    = skipn (Z.to_nat (_buffer_start w' - _buffer_start w))
            (join (_buffer w) ++ data) /\
    _stream w' = _stream w /\ _position w' = _position w /\
    _max_buffer_size w' = _max_buffer_size w /\
    window_ok w' /\
    (Forall (fun d => d <> []) (_buffer w) ->
     Forall (fun d => d <> []) (_buffer w')).
Proof. exact (_store_data_exact data w). Qed.

(** A block of ten bytes stored in a window of at most four: the last
    four are kept. *)
Lemma _store_data_keeps_tail_witness :
  window_ok scenario /\
  (exists w',
     _store_data (b "0123456789"%string) scenario = (Returns tt, w') /\
     _buffer_end w' = _buffer_end scenario + len (b "0123456789"%string) /\
     _buffer_start w'
     = Z.max (_buffer_start scenario)
             (_buffer_end w' - _max_buffer_size scenario) /\
     join (_buffer w')
     = skipn (Z.to_nat (_buffer_start w' - _buffer_start scenario))
             (join (_buffer scenario) ++ b "0123456789"%string) /\
     _stream w' = _stream scenario /\ _position w' = _position scenario /\
     _max_buffer_size w' = _max_buffer_size scenario /\
     window_ok w' /\
     (Forall (fun d => d <> []) (_buffer scenario) ->
      Forall (fun d => d <> []) (_buffer w'))) /\
  join (_buffer (snd (_store_data (b "0123456789"%string) scenario)))
  = b "6789"%string.
Proof.
  assert (Hok : window_ok scenario).
  { unfold window_ok, window_consistent, window_bounded. simpl. lia. }
  split; [exact Hok|]. split; [|reflexivity].
  apply (_store_data_keeps_tail (b "0123456789"%string) scenario Hok).
Defined.

(** ** What [_read_from_buffer] returns *)

Lemma len_span (lo n : Z) (l : bytes) :
  0 <= lo -> 0 <= n -> len (span lo n l) = Z.min n (Z.max 0 (len l - lo)).
Proof.
  intros Hlo Hn. unfold span, len.
  rewrite length_firstn, length_skipn. lia.
Qed.

(** A slice with bounds inside the block is a span of it. *)
Lemma slice_span (data : bytes) (k r : Z) :
  0 <= k <= len data -> 0 <= r -> slice data k (k + r) = span k r data.
Proof.
  intros Hk Hr. unfold slice, span, slice_bound.
  destruct (Z.ltb_spec k 0); [lia|].
  destruct (Z.ltb_spec (k + r) 0); [lia|].
  rewrite (Z.min_l k) by lia.
  destruct (Z.le_gt_cases (k + r) (len data)) as [Hle|Hgt].
  - rewrite Z.min_l by lia. f_equal. lia.
  - rewrite Z.min_r by lia.
    rewrite !firstn_all2; [reflexivity | |];
      rewrite length_skipn; unfold len in *; lia.
Qed.

Lemma slice_nothing (data : bytes) (k : Z) : slice data k (k + 0) = [].
Proof.
  unfold slice. rewrite Z.add_0_r, Z.sub_diag. reflexivity.
Qed.

Lemma set_position_id {S} (w : wrapper S) :
  set_position w (_position w + 0) = w.
Proof. destruct w. unfold set_position. simpl. f_equal. lia. Qed.

(** The span runs over the end of the first list. *)
Lemma span_app_over (k r : Z) (data rest : bytes) :
  0 <= k <= len data -> len data - k <= r ->
  span k r (data ++ rest)
  = skipn (Z.to_nat k) data ++ span 0 (r - (len data - k)) rest.
Proof.
  intros Hk Hr. unfold span, len in *.
  rewrite skipn_app_le by lia.
  rewrite firstn_app, length_skipn.
  rewrite firstn_all2 by (rewrite length_skipn; lia).
  simpl skipn. do 2 f_equal. lia.
Qed.

(** The span ends in the first list. *)
Lemma span_app_within (k r : Z) (data rest : bytes) :
  0 <= k <= len data -> 0 <= r <= len data - k ->
  span k r (data ++ rest) = span k r data.
Proof.
  intros Hk Hr. unfold span, len in *.
  rewrite skipn_app_le by lia.
  rewrite firstn_app, length_skipn.
  replace (Z.to_nat r - (List.length data - Z.to_nat k))%nat with 0%nat
    by lia.
  simpl. apply app_nil_r.
Qed.

(** Once nothing more is wanted and the cursor is before the block being
    visited, the scan adds empty slices only and leaves the cursor. *)
Lemma _read_from_buffer_loop_done {S} (blocks : list bytes) :
  forall pib read_size buffered (w : wrapper S),
    _position w <= pib ->
    exists out,
      _read_from_buffer_loop blocks pib 0 read_size buffered w
      = (Returns out, w) /\ join out = join buffered.
Proof.
  induction blocks as [|data rest IH]; intros pib rs buffered w Hpos.
  - exists buffered. split; reflexivity.
  - pose proof (len_nonneg data) as Hn.
    simpl. unfold bind at 1, get at 1.
    destruct (Z.geb_spec (pib + len data) (_position w)) as [_|]; [|lia].
    rewrite Z.min_r by lia. rewrite slice_nothing.
    unfold bind, put. rewrite set_position_id. change (- 0) with 0.
    destruct (IH (pib + len data) (Some 0) (buffered ++ [[]]) w)
      as (out & E & Hj); [lia|].
    exists out. split; [exact E|].
    rewrite Hj, join_app. apply app_nil_r.
Qed.

(** With the cursor in the first of the blocks that are left, the scan
    returns the [remaining] bytes that follow the cursor, or those there
    are, and moves the cursor past them. *)
Lemma _read_from_buffer_loop_exact {S} (blocks : list bytes) :
  forall pib remaining read_size buffered (w : wrapper S),
    0 <= remaining ->
    pib <= _position w <= pib + head_len blocks ->
    let d := span (_position w - pib) remaining (join blocks) in
    exists out,
      _read_from_buffer_loop blocks pib remaining read_size buffered w
      = (Returns out, set_position w (_position w + len d)) /\
      join out = join buffered ++ d.
Proof.
  induction blocks as [|data rest IH];
    intros pib remaining rs buffered w Hrem Hpos d.
  - exists buffered. subst d. unfold span, join. simpl.
    rewrite skipn_nil, firstn_nil. change (len []) with 0.
    rewrite set_position_id, app_nil_r. split; reflexivity.
  - pose proof (len_nonneg data) as Hn. unfold head_len in Hpos.
    simpl. unfold bind at 1, get at 1.
    destruct (Z.geb_spec (pib + len data) (_position w)) as [_|]; [|lia].
    set (k := _position w - pib) in *.
    destruct (Z.le_gt_cases (len data - k) remaining) as [Hall|Hpart].
    + (* the block is read to its end *)
      rewrite Z.min_l by lia.
      rewrite slice_span by lia.
      unfold bind, put.
      match goal with
      | |- context [_read_from_buffer_loop rest ?p ?r ?s ?b ?w0] =>
          destruct (IH p r s b w0) as (out & E & Hj)
      end.
      { lia. }
      { unfold set_position. projections.
        pose proof (head_len_nonneg rest). subst k. lia. }
      exists out. rewrite E. clear E.
      unfold set_position in *. projections.
      replace (_position w + (len data - k) - (pib + len data)) with 0 in *
        by (subst k; lia).
      subst d. rewrite join_cons, span_app_over by lia.
      split.
      * rewrite len_app.
        replace (len (skipn (Z.to_nat k) data)) with (len data - k)
          by (unfold len in *; rewrite length_skipn; lia).
        do 2 f_equal. lia.
      * rewrite Hj, join_app. change (join [?x]) with (x ++ []).
        rewrite app_nil_r, <- app_assoc. do 2 f_equal.
        unfold span. rewrite firstn_all2; [reflexivity|].
        rewrite length_skipn. unfold len in *. lia.
    + (* what is wanted ends inside the block *)
      rewrite Z.min_r by lia. rewrite slice_span by lia.
      unfold bind, put.
      replace (remaining - remaining) with 0 by lia.
      match goal with
      | |- context [_read_from_buffer_loop rest ?p 0 ?s ?b ?w0] =>
          destruct (_read_from_buffer_loop_done rest p s b w0)
            as (out & E & Hj)
      end.
      { unfold set_position. projections. subst k. lia. }
      exists out. rewrite E. clear E.
      subst d. rewrite join_cons, span_app_within by lia.
      rewrite len_span by lia.
      split.
      * do 2 f_equal. lia.
      * rewrite Hj, join_app. change (join [?x]) with (x ++ []).
        rewrite app_nil_r. reflexivity.
Qed.

Lemma len_join (xs : list bytes) : len (join xs) = total_len xs.
Proof.
  induction xs as [|x xs IH]; [reflexivity|].
  rewrite join_cons, len_app, IH. reflexivity.
Qed.

Lemma head_len_total (xs : list bytes) : head_len xs <= total_len xs.
Proof.
  destruct xs as [|x xs]; simpl; [lia|].
  pose proof (total_len_nonneg' xs). lia.
Qed.

(** What [_read_from_buffer] returns with the cursor in the first block. *)
Lemma _read_from_buffer_exact {S} (amount : Z) (w : wrapper S) :
  0 <= amount -> window_consistent w -> in_first_block w ->
  let d := span (_position w - _buffer_start w) amount (join (_buffer w)) in
  _read_from_buffer amount w
  = (Returns d, set_position w (_position w + len d)).
Proof.
  intros Ham Hc Hin d. unfold window_consistent, in_first_block in *.
  unfold _read_from_buffer, bind at 1, get at 1.
  destruct (Z.ltb_spec (_position w) (_buffer_end w)) as [Hlt|Hge].
  - destruct (_read_from_buffer_loop_exact (_buffer w) (_buffer_start w)
                amount None [] w Ham Hin) as (out & E & Hj).
    unfold bind. rewrite E. unfold ret. fold d in Hj. simpl in Hj.
    rewrite Hj. reflexivity.
  - pose proof (head_len_total (_buffer w)).
    assert (Ed : d = []).
    { subst d. unfold span. rewrite skipn_all2, firstn_nil; [reflexivity|].
      pose proof (len_join (_buffer w)) as Hl. unfold len in Hl. lia. }
    rewrite Ed. change (len []) with 0. rewrite set_position_id.
    reflexivity.
Qed.

(** With the cursor in the first block, or at one of its ends,
    [_read_from_buffer(amount)] returns the [amount] buffered bytes that
    follow the cursor, or those there are when they are fewer, and moves the
    cursor past them; nothing else is changed. *)
Theorem _read_from_buffer_in_first_block {S} (amount : Z) (w : wrapper S) :
  0 <= amount -> window_consistent w -> in_first_block w ->
  let d := span (_position w - _buffer_start w) amount (join (_buffer w)) in
  _read_from_buffer amount w
  = (Returns d, set_position w (_position w + len d)).
Proof. exact (_read_from_buffer_exact amount w). Qed.

(** The scenario after [seek(3)]: the two bytes from offset 3 lie in two
    blocks. *)
Lemma _read_from_buffer_in_first_block_witness :
  let w := set_position scenario_read_6 3 in
  0 <= 2 /\ window_consistent w /\ in_first_block w /\
  _read_from_buffer 2 w
  = (Returns (span (_position w - _buffer_start w) 2 (join (_buffer w))),
     set_position w
       (_position w
        + len (span (_position w - _buffer_start w) 2 (join (_buffer w)))))
  /\ span (_position w - _buffer_start w) 2 (join (_buffer w))
     = b "34"%string.
Proof.
  intros w.
  assert (Hc : window_consistent w) by reflexivity.
  assert (Hin : in_first_block w) by (vm_compute; split; discriminate).
  split; [lia|]. split; [exact Hc|]. split; [exact Hin|].
  split; [|reflexivity].
  apply (_read_from_buffer_in_first_block 2 w); [lia | exact Hc | exact Hin].
Defined.

(** ** The effect of [read] on the window *)

(** A [read] either does not return, and then only the cursor may have
    moved, or it returns and has stored what it took from the stream. *)
Lemma read_effect {S} `{RawStream S} (size : option Z) (w : wrapper S)
    o w' :
  window_ok w -> read size w = (o, w') ->
  ((forall data, o <> Returns data) /\ same_window w w') \/
  (exists remaining,
     let new := from_stream size remaining (_stream w) in
     appended (fst new) w w' /\ _stream w' = snd new).
Proof.
  intros Hok E.
  destruct (_read_from_buffer (bytes_wanted size (_max_buffer_size w)) w)
    as [o1 w1] eqn:E1.
  pose proof (_read_from_buffer_frame _ _ _ _ E1) as Hf.
  assert (Hfail : (forall data, o1 <> Returns data) ->
                  (forall data, o <> Returns data) /\ same_window w w').
  { intros Hne.
    destruct (read_not_returns size w o1 w1 E1 Hne) as (o' & E2 & Hne').
    rewrite E in E2. inversion E2; subst. auto. }
  destruct o1 as [data|e|]; try (left; apply Hfail; discriminate).
  right. exists (bytes_wanted size (_max_buffer_size w) - len data).
  pose proof (window_ok_same_window _ _ Hf Hok) as Hok1.
  unfold same_window in Hf.
  assert (Es : _stream w1 = _stream w) by (rewrite Hf; reflexivity).
  rewrite read_unfold, E1 in E. cbv zeta in E. rewrite Es in E.
  cbv zeta.
  set (new := from_stream size
                (bytes_wanted size (_max_buffer_size w) - len data)
                (_stream w)) in *.
  set (w2 := set_position (set_stream w1 (snd new))
                          (_position w1 + len (fst new))) in *.
  destruct (_store_data_exact (fst new) w2)
    as (w3 & E3 & He & Hs & Hj & Hst & _ & Hm & _ & Hne).
  { revert Hok1. destruct w1.
    unfold window_ok, window_consistent, window_bounded. simpl. auto. }
  rewrite E3 in E. inversion E; subst o w3. clear E.
  assert (Eb : _buffer w2 = _buffer w)
    by (unfold w2; simpl; rewrite Hf; reflexivity).
  assert (Ee : _buffer_end w2 = _buffer_end w)
    by (unfold w2; simpl; rewrite Hf; reflexivity).
  assert (Ebs : _buffer_start w2 = _buffer_start w)
    by (unfold w2; simpl; rewrite Hf; reflexivity).
  assert (Em : _max_buffer_size w2 = _max_buffer_size w)
    by (unfold w2; simpl; rewrite Hf; reflexivity).
  rewrite Eb, Ee, Ebs, Em in *.
  split; [|exact Hst].
  unfold appended. repeat split; assumption.
Qed.

Lemma span_extend (s e m : Z) (bs : bytes) :
  0 <= s <= e -> 0 <= m ->
  span s (e - s) bs ++ span e m bs = span s (e + m - s) bs.
Proof.
  intros Hs Hm. unfold span.
  replace (Z.to_nat e) with (Z.to_nat (e - s) + Z.to_nat s)%nat by lia.
  rewrite <- skipn_skipn, firstn_plus. f_equal. lia.
Qed.

Lemma span_skip (s s' e' : Z) (bs : bytes) :
  0 <= s <= s' -> s' <= e' ->
  skipn (Z.to_nat (s' - s)) (span s (e' - s) bs) = span s' (e' - s') bs.
Proof.
  intros Hs He. unfold span.
  rewrite skipn_firstn_comm, skipn_skipn. f_equal; [lia|]. f_equal. lia.
Qed.

Lemma app_split {A} (x y l : list A) :
  x ++ y = l -> x = firstn (List.length x) l /\ y = skipn (List.length x) l.
Proof.
  intros <-. split.
  - rewrite firstn_app, Nat.sub_diag, firstn_all. simpl.
    symmetry. apply app_nil_r.
  - rewrite skipn_app, Nat.sub_diag, skipn_all. reflexivity.
Qed.

Lemma from_stream_split (size : option Z) (remaining : Z) (s : bytes) :
  fst (from_stream size remaining s) ++ snd (from_stream size remaining s)
  = s.
Proof.
  unfold from_stream. destruct (read_all_bytes size).
  - apply bytes_read_split.
  - destruct (negb (remaining =? 0)); [apply bytes_read_split|].
    reflexivity.
Qed.

(** Over a byte string, [read] keeps the blocks and the stream in step
    with it. *)
Lemma read_mirrors (bs : bytes) (size : option Z) (w : wrapper bytes) o w' :
  window_ok w -> mirrors bs w -> read size w = (o, w') -> mirrors bs w'.
Proof.
  intros Hok (Hj & Hst & Hs0 & Hel) E.
  destruct (read_effect size w o w' Hok E) as [[_ Hf]|(r & Happ & Hst')].
  { unfold same_window in Hf. rewrite Hf. unfold mirrors. simpl. auto. }
  cbv zeta in *.
  destruct Happ as (He & Hs & Hj' & Hm & _).
  pose proof (from_stream_split size r (_stream w)) as Hsplit.
  set (new := fst (from_stream size r (_stream w))) in *.
  apply app_split in Hsplit. destruct Hsplit as [Hnew Hrest].
  destruct Hok as (Hc & Hb & Hmax).
  unfold window_consistent, window_bounded in *.
  pose proof (total_len_nonneg' (_buffer w)) as Htot.
  pose proof (len_nonneg new) as Hn.
  assert (Hlen : len new <= len bs - _buffer_end w).
  { apply (f_equal (@List.length byte)) in Hnew.
    rewrite length_firstn, Hst, length_skipn in Hnew.
    unfold len in *. lia. }
  assert (Enew : new = span (_buffer_end w) (len new) bs).
  { unfold span. rewrite <- Hst. unfold len.
    rewrite Nat2Z.id. exact Hnew. }
  unfold mirrors. rewrite Hj', Hj, He, Hst'.
  split; [|split; [|split]]; try lia.
  - rewrite Enew at 1. rewrite span_extend by lia.
    rewrite span_skip by lia. reflexivity.
  - fold new. rewrite Hrest, Hst, skipn_skipn. f_equal.
    unfold len in *. lia.
Qed.

(** ** Invariants of every run *)

Lemma read_no_empty_block {S} `{RawStream S} (size : option Z)
    (w : wrapper S) o w' :
  window_ok w -> Forall (fun d => d <> []) (_buffer w) ->
  read size w = (o, w') -> Forall (fun d => d <> []) (_buffer w').
Proof.
  intros Hok Hne E.
  destruct (read_effect size w o w' Hok E) as [[_ Hf]|(r & Happ & _)].
  - unfold same_window in Hf. rewrite Hf. exact Hne.
  - apply Happ. exact Hne.
Qed.

(** Whatever calls are made on a fresh wrapper whose [max_buffer_size] is
    not negative, and whatever the stream returns, no block of the buffer is
    ever empty and the lengths of the blocks add up to
    [buffer_end - buffer_start]. *)
Theorem blocks_fill_window {S} `{RawStream S} (stream : S)
    (max_buffer_size : Z) (fuel : nat) (calls : list call) :
  0 <= max_buffer_size ->
  Forall (fun r => Forall (fun d => d <> []) (_buffer (snd r)) /\
                   _buffer_start (snd r) + total_len (_buffer (snd r))
                   = _buffer_end (snd r))
         (run fuel calls (init stream max_buffer_size)).
Proof.
  intros Hmax.
  pose proof (window_ok_init stream max_buffer_size Hmax) as Hok.
  destruct (run_preserves fuel calls _ Hok) as [Hrun _].
  pose proof (run_invariant (fun w => Forall (fun d => d <> []) (_buffer w))
                read_no_empty_block (fun w p Hw => Hw) fuel calls _ Hok
                (Forall_nil _)) as Hrun2.
  rewrite Forall_forall in *. intros r Hr. split; [exact (Hrun2 r Hr)|].
  apply (Hrun r Hr).
Qed.

Lemma blocks_fill_window_witness :
  0 <= 4 /\
  Forall (fun r => Forall (fun d => d <> []) (_buffer (snd r)) /\
                   _buffer_start (snd r) + total_len (_buffer (snd r))
                   = _buffer_end (snd r))
         (run 5 [CallRead (Some 3); CallRead (Some 0); CallRead (Some 3);
                 CallSeek 4 SEEK_SET; CallRead (Some 1); CallSeek 0 SEEK_END]
              scenario).
Proof.
  split; [lia|].
  apply (blocks_fill_window (b "0123456789"%string) 4 5). lia.
Defined.

Lemma read_moves_forward {S} `{RawStream S} (start0 end0 : Z)
    (size : option Z) (w : wrapper S) o w' :
  window_ok w ->
  start0 <= _buffer_start w /\ end0 <= _buffer_end w ->
  read size w = (o, w') ->
  start0 <= _buffer_start w' /\ end0 <= _buffer_end w'.
Proof.
  intros Hok Hle E.
  destruct (read_effect size w o w' Hok E) as [[_ Hf]|(r & Happ & _)].
  - unfold same_window in Hf. rewrite Hf. exact Hle.
  - cbv zeta in Happ. destruct Happ as (He & Hs & _).
    pose proof (len_nonneg (fst (from_stream size r (_stream w)))).
    lia.
Qed.

(** From a well-formed window on, no call ever moves [buffer_start] or
    [buffer_end] back, and [max_buffer_size] stays what it is. *)
Theorem window_moves_forward {S} `{RawStream S} (fuel : nat)
    (calls : list call) (w : wrapper S) :
  window_ok w ->
  Forall (fun r => _buffer_start w <= _buffer_start (snd r) /\
                   _buffer_end w <= _buffer_end (snd r) /\
                   _max_buffer_size (snd r) = _max_buffer_size w)
         (run fuel calls w).
Proof.
  intros Hok.
  destruct (run_preserves fuel calls _ Hok) as [Hrun _].
  pose proof (run_invariant
                (fun w' => _buffer_start w <= _buffer_start w' /\
                           _buffer_end w <= _buffer_end w')
                (read_moves_forward (_buffer_start w) (_buffer_end w))
                (fun w p Hw => Hw) fuel calls _ Hok
                (conj (Z.le_refl _) (Z.le_refl _))) as Hrun2.
  rewrite Forall_forall in *. intros r Hr.
  destruct (Hrun2 r Hr) as [H1 H2]. destruct (Hrun r Hr) as [_ H3].
  auto.
Qed.

Lemma window_moves_forward_witness :
  window_ok scenario_read_6 /\
  Forall (fun r => _buffer_start scenario_read_6 <= _buffer_start (snd r) /\
                   _buffer_end scenario_read_6 <= _buffer_end (snd r) /\
                   _max_buffer_size (snd r)
                   = _max_buffer_size scenario_read_6)
         (run 5 [CallSeek 2 SEEK_SET; CallRead (Some 5); CallSeek 1 SEEK_END]
              scenario_read_6).
Proof.
  assert (Hok : window_ok scenario_read_6).
  { unfold window_ok, window_consistent, window_bounded.
    vm_compute. repeat split; discriminate. }
  split; [exact Hok|].
  apply (window_moves_forward 5 _ scenario_read_6 Hok).
Defined.

(** Over a byte string [bs], whatever calls are made on a fresh wrapper
    whose [max_buffer_size] is not negative, the blocks put end to end are
    the bytes of [bs] from [buffer_start] to [buffer_end], and what is left
    of the stream is [bs] from [buffer_end] on. *)
Theorem blocks_mirror_stream (bs : bytes) (max_buffer_size : Z)
    (fuel : nat) (calls : list call) :
  0 <= max_buffer_size ->
  Forall (fun r =>
            join (_buffer (snd r))
            = span (_buffer_start (snd r))
                   (_buffer_end (snd r) - _buffer_start (snd r)) bs /\
            _stream (snd r) = skipn (Z.to_nat (_buffer_end (snd r))) bs /\
            0 <= _buffer_start (snd r) <= _buffer_end (snd r) /\
            _buffer_end (snd r) <= len bs)
         (run fuel calls (init bs max_buffer_size)).
Proof.
  intros Hmax.
  pose proof (window_ok_init bs max_buffer_size Hmax) as Hok.
  assert (Hm : mirrors bs (init bs max_buffer_size)).
  { unfold mirrors, init. simpl. pose proof (len_nonneg bs).
    repeat split; lia. }
  destruct (run_preserves fuel calls _ Hok) as [Hrun _].
  pose proof (run_invariant (mirrors bs) (read_mirrors bs)
                (fun w p Hw => Hw) fuel calls _ Hok Hm) as Hrun2.
  rewrite Forall_forall in *. intros r Hr.
  destruct (Hrun2 r Hr) as (H1 & H2 & H3 & H4).
  destruct (Hrun r Hr) as [Hw _]. destruct Hw as (Hc & _).
  unfold window_consistent in Hc.
  pose proof (total_len_nonneg' (_buffer (snd r))).
  unfold bytes in *. repeat split; try assumption; lia.
Qed.

Lemma blocks_mirror_stream_witness :
  0 <= 4 /\
  Forall (fun r =>
            join (_buffer (snd r))
            = span (_buffer_start (snd r))
                   (_buffer_end (snd r) - _buffer_start (snd r))
                   (b "0123456789"%string) /\
            _stream (snd r)
            = skipn (Z.to_nat (_buffer_end (snd r))) (b "0123456789"%string)
            /\ 0 <= _buffer_start (snd r) <= _buffer_end (snd r) /\
            _buffer_end (snd r) <= len (b "0123456789"%string))
         (run 5 [CallRead (Some 3); CallRead (Some 3); CallSeek 4 SEEK_SET;
                 CallRead (Some 4); CallSeek 1 SEEK_END]
              (init (b "0123456789"%string) 4)).
Proof.
  split; [lia|].
  apply (blocks_mirror_stream (b "0123456789"%string) 4 5). lia.
Defined.

(** ** Reading at the cursor *)

Lemma span_span (s p e a : Z) (bs : bytes) :
  0 <= s <= p -> p <= e -> 0 <= a ->
  span (p - s) a (span s (e - s) bs) = span p (Z.min a (e - p)) bs.
Proof.
  intros Hs He Ha. unfold span.
  rewrite skipn_firstn_comm, skipn_skipn, firstn_firstn.
  f_equal; [lia|]. f_equal. lia.
Qed.

Lemma bytes_wanted_nonneg (size : option Z) (max_buffer_size : Z) :
  0 <= max_buffer_size -> 0 <= bytes_wanted size max_buffer_size.
Proof.
  intros Hmax. unfold bytes_wanted. destruct size as [n|]; [|exact Hmax].
  destruct (Z.ltb_spec n 0); lia.
Qed.

(** The bytes taken from the buffer up to [e] and the bytes then taken
    from the stream are, end to end, what one read returns from [p] on. *)
Lemma read_pieces (bs : bytes) (size : option Z) (p e mx : Z) :
  0 <= p <= e -> e <= len bs -> e - p <= mx ->
  let amount := bytes_wanted size mx in
  let d := span p (Z.min amount (e - p)) bs in
  let new := from_stream size (amount - len d) (skipn (Z.to_nat e) bs) in
  d ++ fst new = fst (bytes_read (request size) (skipn (Z.to_nat p) bs)) /\
  (len (fst new) = 0 \/ len d = e - p).
Proof.
  intros Hp He Hmx amount d new.
  assert (Hrest : span p (e - p) bs ++ skipn (Z.to_nat e) bs
                  = skipn (Z.to_nat p) bs).
  { unfold span.
    replace (Z.to_nat e) with (Z.to_nat (e - p) + Z.to_nat p)%nat by lia.
    rewrite <- skipn_skipn. apply firstn_skipn. }
  assert (Hfull : len (span p (e - p) bs) = e - p)
    by (rewrite len_span by lia; lia).
  destruct (read_all_bytes size) eqn:Hall.
  - (* everything that is left is read *)
    assert (Ea : amount = mx).
    { unfold amount, bytes_wanted. destruct size as [n|]; [|reflexivity].
      simpl in Hall. rewrite Hall. reflexivity. }
    assert (Er : forall X, fst (bytes_read (request size) X) = X).
    { intros X. unfold bytes_read, request.
      destruct size as [n|]; [|reflexivity].
      simpl in Hall. rewrite Hall. reflexivity. }
    subst new d. unfold from_stream. rewrite Hall, Ea, Er.
    rewrite Z.min_r by lia. simpl fst.
    split; [exact Hrest | right; exact Hfull].
  - destruct size as [n|]; [|discriminate]. simpl in Hall.
    apply Z.ltb_ge in Hall.
    assert (Ea : amount = n).
    { unfold amount, bytes_wanted.
      destruct (Z.ltb_spec n 0); [lia | reflexivity]. }
    subst new d. unfold from_stream, read_all_bytes, request.
    destruct (Z.ltb_spec n 0) as [|_]; [lia|]. rewrite Ea.
    assert (El : len (span p (Z.min n (e - p)) bs) = Z.min n (e - p))
      by (rewrite len_span by lia; lia).
    rewrite El.
    destruct (Z.le_gt_cases n (e - p)) as [Hin|Hover].
    + (* the buffer has all the bytes *)
      rewrite Z.min_l by lia. rewrite Z.sub_diag. simpl.
      rewrite app_nil_r. split; [|left; reflexivity].
      unfold bytes_read. destruct (Z.ltb_spec n 0); [lia | reflexivity].
    + (* the stream gives the rest *)
      rewrite Z.min_r by lia.
      destruct (Z.eqb_spec (n - (e - p)) 0); [lia|]. simpl negb. cbv iota.
      split; [|right; reflexivity].
      unfold stream_read, BytesIO, bytes_read.
      destruct (Z.ltb_spec (n - (e - p)) 0); [lia|].
      destruct (Z.ltb_spec n 0); [lia|]. simpl fst.
      change (firstn (Z.to_nat (n - (e - p))) (skipn (Z.to_nat e) bs))
        with (span e (n - (e - p)) bs).
      rewrite span_extend by lia. unfold span. f_equal. lia.
Qed.

(** What [read] returns with the cursor in the first block. *)
Lemma read_at_cursor_exact (bs : bytes) (size : option Z) (w : wrapper bytes) :
  window_ok w -> mirrors bs w -> in_first_block w ->
  let data :=
    fst (stream_read (request size) (skipn (Z.to_nat (_position w)) bs)) in
  exists w',
    read size w = (Returns data, w') /\
    _position w' = _position w + len data /\
    _buffer_end w' = Z.max (_buffer_end w) (_position w') /\
    window_ok w' /\ mirrors bs w'.
Proof.
  intros Hok Hmir Hin data.
  pose proof Hok as (Hc & Hb & Hmax).
  pose proof Hmir as (Hj & Hst & Hs0 & Hel).
  unfold window_consistent, window_bounded in Hc, Hb.
  pose proof Hin as Hin'. unfold in_first_block in Hin'.
  pose proof (head_len_total (_buffer w)) as Hhead.
  assert (Ham : 0 <= bytes_wanted size (_max_buffer_size w))
    by (apply bytes_wanted_nonneg; exact Hmax).
  pose proof (_read_from_buffer_exact _ w Ham (proj1 Hok) Hin)
    as E1.
  cbv zeta in E1. rewrite Hj, span_span in E1 by lia.
  destruct (read_pieces bs size (_position w) (_buffer_end w)
              (_max_buffer_size w)) as [Hdata Hcase]; try lia.
  cbv zeta in Hdata, Hcase.
  destruct (read_returns size w _ _ Hok E1)
    as (w' & E & Hok' & _ & Hp' & He' & _).
  cbv zeta in E, Hp', He'. rewrite Hst in E, Hp', He'.
  simpl _position in Hp'.
  pose (d := span (_position w)
               (Z.min (bytes_wanted size (_max_buffer_size w))
                      (_buffer_end w - _position w)) bs).
  pose (new := from_stream size
                 (bytes_wanted size (_max_buffer_size w) - len d)
                 (skipn (Z.to_nat (_buffer_end w)) bs)).
  assert (E' : read size w = (Returns (d ++ fst new), w')) by exact E.
  assert (Hp : _position w' = _position w + len d + len (fst new))
    by exact Hp'.
  assert (He : _buffer_end w' = _buffer_end w + len (fst new)) by exact He'.
  assert (Hdata' : d ++ fst new = data) by exact Hdata.
  assert (Hcase' : len (fst new) = 0 \/ len d = _buffer_end w - _position w)
    by exact Hcase.
  assert (Hd : len d <= _buffer_end w - _position w)
    by (unfold d; rewrite len_span by lia; lia).
  clearbody d new. clear E Hp' He' Hdata Hcase.
  pose proof (len_nonneg (fst new)) as Hnn.
  pose proof (f_equal len Hdata') as Hlen. rewrite len_app in Hlen.
  rewrite Hdata' in E'.
  exists w'. split; [exact E'|].
  split; [lia|]. split; [lia|]. split; [exact Hok'|].
  exact (read_mirrors bs size w _ w' Hok Hmir E').
Qed.

(** Over a byte string [bs], with the cursor in the first block or at one
    of its ends (as after a seek to [buffer_start], or with no seek
    pending in a one-block window), [read(size)] returns what a read of that
    size returns on [bs] from the cursor on, whether the bytes come from the
    buffer, from the stream or from both; the cursor moves past them, and
    [buffer_end] moves only if the cursor passes it. *)
Theorem read_at_cursor (bs : bytes) (size : option Z) (w : wrapper bytes) :
  window_ok w -> mirrors bs w -> in_first_block w ->
  let data :=
    fst (stream_read (request size) (skipn (Z.to_nat (_position w)) bs)) in
  exists w',
    read size w = (Returns data, w') /\
    _position w' = _position w + len data /\
    _buffer_end w' = Z.max (_buffer_end w) (_position w') /\
    window_ok w' /\ mirrors bs w'.
Proof. exact (read_at_cursor_exact bs size w). Qed.

(** A read of five bytes in the scenario after [seek(3)]: three bytes come
    from the buffer and two from the stream. *)
Lemma read_at_cursor_witness :
  let bs := b "0123456789"%string in
  let w := set_position scenario_read_6 3 in
  window_ok w /\ mirrors bs w /\ in_first_block w /\
  (exists w',
     read (Some 5) w
     = (Returns (fst (stream_read (request (Some 5))
                        (skipn (Z.to_nat (_position w)) bs))), w') /\
     _position w'
     = _position w
       + len (fst (stream_read (request (Some 5))
                     (skipn (Z.to_nat (_position w)) bs))) /\
     _buffer_end w' = Z.max (_buffer_end w) (_position w') /\
     window_ok w' /\ mirrors bs w') /\
  fst (read (Some 5) w) = Returns (b "34567"%string).
Proof.
  intros bs w.
  assert (Hok : window_ok w).
  { unfold window_ok, window_consistent, window_bounded.
    vm_compute. repeat split; discriminate. }
  assert (Hmir : mirrors bs w).
  { unfold mirrors. vm_compute. repeat split; discriminate. }
  assert (Hin : in_first_block w) by (vm_compute; split; discriminate).
  split; [exact Hok|]. split; [exact Hmir|]. split; [exact Hin|].
  split; [|reflexivity].
  apply (read_at_cursor bs (Some 5) w Hok Hmir Hin).
Defined.

(** The object after any calls on a fresh wrapper over a byte string has a
    well-formed window that mirrors the byte string. *)
Lemma mirrors_final (bs : bytes) (max_buffer_size : Z) (fuel : nat)
    (calls : list call) :
  0 <= max_buffer_size ->
  let w := final fuel calls (init bs max_buffer_size) in
  window_ok w /\ _max_buffer_size w = max_buffer_size /\ mirrors bs w.
Proof.
  intros Hmax w.
  pose proof (window_ok_init bs max_buffer_size Hmax) as Hok.
  assert (Hm : mirrors bs (init bs max_buffer_size)).
  { unfold mirrors, init. simpl. pose proof (len_nonneg bs).
    repeat split; lia. }
  destruct (run_preserves fuel calls _ Hok) as [Hrun _].
  pose proof (run_invariant (mirrors bs) (read_mirrors bs)
                (fun w p Hw => Hw) fuel calls _ Hok Hm) as Hrun2.
  subst w. unfold final.
  apply Forall_last with (P := fun w => window_ok w /\
                                        _max_buffer_size w = max_buffer_size /\
                                        mirrors bs w);
    [|auto].
  apply Forall_map.
  rewrite Forall_forall in *. intros r Hr.
  destruct (Hrun r Hr) as [H1 H2]. specialize (Hrun2 r Hr).
  simpl in H2. auto.
Qed.

(** ** Replaying from the window *)

(** Over a byte string [bs], in any state that calls on a fresh wrapper
    lead to: an absolute seek to an offset in the first block or at one of
    its ends (the offset [buffer_start] always is) returns, and the
    [read(size)] that follows returns the bytes of [bs] from that offset on,
    as many as a read of that size returns: the bytes delivered before for
    that range, then new ones from the stream if more are asked for.
    [tell()] is then the offset plus their number, and [buffer_end] has moved
    only if the cursor passed it. *)
Theorem replay_from_first_block (bs : bytes) (max_buffer_size : Z)
    (calls : list call) (offset : Z) (size : option Z) (fuel0 fuel : nat) :
  let w := final fuel0 calls (init bs max_buffer_size) in
  let data :=
    fst (stream_read (request size) (skipn (Z.to_nat offset) bs)) in
  0 <= max_buffer_size ->
  _buffer_start w <= offset <= _buffer_start w + head_len (_buffer w) ->
  exists w',
    seek fuel offset SEEK_SET w = (Returns tt, set_position w offset) /\
    read size (set_position w offset) = (Returns data, w') /\
    tell w' = offset + len data /\
    _buffer_end w' = Z.max (_buffer_end w) (tell w').
Proof.
  intros w data Hmax Hoff.
  destruct (mirrors_final bs max_buffer_size fuel0 calls Hmax)
    as (Hok & _ & Hmir).
  fold w in Hok, Hmir.
  pose proof (head_len_total (_buffer w)) as Hhead.
  assert (Hc : _buffer_start w + total_len (_buffer w) = _buffer_end w)
    by apply Hok.
  assert (Hok1 : window_ok (set_position w offset)).
  { revert Hok. destruct w.
    unfold window_ok, window_consistent, window_bounded. simpl. auto. }
  assert (Hmir1 : mirrors bs (set_position w offset)).
  { revert Hmir. destruct w. unfold mirrors. simpl. auto. }
  assert (Hin : in_first_block (set_position w offset)).
  { unfold in_first_block. simpl. exact Hoff. }
  destruct (read_at_cursor_exact bs size _ Hok1 Hmir1 Hin)
    as (w' & E & Hp & He & _).
  exists w'. split; [|split; [exact E|split; [exact Hp | exact He]]].
  unfold seek, bind, get, put. simpl.
  destruct (Z.ltb_spec offset (_buffer_start w)); [lia|].
  destruct (Z.gtb_spec offset (_buffer_end w)); [lia | reflexivity].
Qed.

(** In the scenario after [read(4)], [read(2)]: back to the start of the
    window, then four bytes again. *)
Lemma replay_from_first_block_witness :
  let bs := b "0123456789"%string in
  let calls := [CallRead (Some 4); CallRead (Some 2)] in
  let w := final 0 calls (init bs 4) in
  0 <= 4 /\
  _buffer_start w <= 2 <= _buffer_start w + head_len (_buffer w) /\
  (exists w',
     seek 0 2 SEEK_SET w = (Returns tt, set_position w 2) /\
     read (Some 4) (set_position w 2)
     = (Returns (fst (stream_read (request (Some 4))
                        (skipn (Z.to_nat 2) bs))), w') /\
     tell w'
     = 2 + len (fst (stream_read (request (Some 4))
                       (skipn (Z.to_nat 2) bs))) /\
     _buffer_end w' = Z.max (_buffer_end w) (tell w')) /\
  fst (read (Some 4) (set_position w 2)) = Returns (b "2345"%string).
Proof.
  intros bs calls w. split; [lia|].
  split; [vm_compute; split; discriminate|]. split; [|reflexivity].
  apply (replay_from_first_block bs 4 calls 2 (Some 4) 0 0);
    [lia | vm_compute; split; discriminate].
Defined.

(** ** Draining with a backward seek pending *)

(** With the cursor in the first block, the loop of [seek] first replays
    the buffer, then reads the stream to its end. *)
Lemma drain_at_cursor (bs : bytes) (fuel : nat) (w : wrapper bytes) :
  0 < _max_buffer_size w ->
  window_ok w -> mirrors bs w -> in_first_block w ->
  (List.length bs + 1 < fuel)%nat ->
  exists w',
    drain fuel w = (Returns tt, w') /\ _stream w' = [] /\
    _position w' = len bs.
Proof.
  intros Hmax Hok Hmir Hin Hfuel.
  destruct fuel as [|fuel]; [lia|].
  destruct (read_at_cursor_exact bs (Some (_max_buffer_size w)) w Hok Hmir Hin)
    as (w1 & E & Hp & He & Hok1 & Hmir1).
  destruct (read_preserves _ _ _ _ Hok E) as (_ & _ & Hm1).
  pose proof Hok as (Hc & Hb & _).
  pose proof Hmir as (_ & _ & Hs0 & Hel).
  pose proof Hmir1 as (_ & Hst1 & _ & Hel1).
  unfold window_consistent, window_bounded, in_first_block in *.
  pose proof (head_len_total (_buffer w)) as Hhead.
  pose (data := fst (bytes_read (_max_buffer_size w)
                       (skipn (Z.to_nat (_position w)) bs))).
  assert (E' : read (Some (_max_buffer_size w)) w = (Returns data, w1))
    by exact E.
  assert (Hp' : _position w1 = _position w + len data) by exact Hp.
  assert (Hlen : len data
                 = Z.min (_max_buffer_size w) (len bs - _position w)).
  { unfold data, bytes_read.
    destruct (Z.ltb_spec (_max_buffer_size w) 0); [lia|]. simpl.
    unfold len. rewrite length_firstn, length_skipn.
    unfold len in *. lia. }
  clearbody data. clear E Hp.
  assert (Hreading : reading (len bs) (_max_buffer_size w) w1).
  { unfold reading. split; [exact Hok1|].
    rewrite Hst1.
    assert (Hrest : len (skipn (Z.to_nat (_buffer_end w1)) bs)
                    = len bs - _buffer_end w1).
    { unfold len. rewrite length_skipn. unfold len in *. lia. }
    rewrite Hrest. repeat split; lia. }
  simpl drain. unfold bind at 1, get at 1. unfold bind at 1. rewrite E'.
  destruct data as [|c data].
  - change (len []) with 0 in Hlen, Hp'.
    exists w1. split; [reflexivity|].
    assert (Hend : _buffer_end w1 = len bs) by lia.
    split; [|lia].
    rewrite Hst1, Hend. apply skipn_all2. unfold len. lia.
  - apply (drain_reading (len bs) (_max_buffer_size w) fuel w1 Hmax Hreading).
    rewrite Hst1, length_skipn. unfold len in *. lia.
Qed.

(** Over a byte string [bs] and with a positive [max_buffer_size], in any
    state that calls on a fresh wrapper lead to and in which the cursor is
    in the first block or at one of its ends (as after a seek to
    [buffer_start]), [seek(offset, os.SEEK_END)] with
    [offset <= max_buffer_size] returns with the stream read to its end and
    [tell()] equal to [len bs - offset]; two reads more than the length of
    the stream are enough for its loop. *)
Theorem seek_end_after_rewind (bs : bytes) (max_buffer_size : Z)
    (calls : list call) (offset : Z) (fuel0 fuel : nat) :
  let w := final fuel0 calls (init bs max_buffer_size) in
  0 < max_buffer_size ->
  _buffer_start w <= _position w
  <= _buffer_start w + head_len (_buffer w) ->
  offset <= max_buffer_size ->
  (List.length bs + 1 < fuel)%nat ->
  exists w',
    seek fuel offset SEEK_END w = (Returns tt, w') /\
    _stream w' = [] /\ tell w' = len bs - offset.
Proof.
  intros w Hmax Hin Hoff Hfuel.
  destruct (mirrors_final bs max_buffer_size fuel0 calls) as (Hok & Hm & Hmir);
    [lia|].
  fold w in Hok, Hm, Hmir.
  destruct (drain_at_cursor bs fuel w) as (w' & E & Hs & Hp);
    try assumption; [lia|].
  unfold seek, bind at 1, get at 1. simpl.
  destruct (Z.gtb_spec offset (_max_buffer_size w)) as [|_]; [lia|].
  unfold bind, put. rewrite E.
  eexists. split; [reflexivity|]. unfold tell. simpl. split; [exact Hs | lia].
Qed.

(** In the scenario: after [read(4)], [read(2)] and [seek(2)], back to the
    start of the window, [seek(1, os.SEEK_END)]. *)
Lemma seek_end_after_rewind_witness :
  let bs := b "0123456789"%string in
  let calls := [CallRead (Some 4); CallRead (Some 2); CallSeek 2 SEEK_SET] in
  let w := final 0 calls (init bs 4) in
  0 < 4 /\
  _buffer_start w <= _position w
  <= _buffer_start w + head_len (_buffer w) /\
  1 <= 4 /\ (List.length bs + 1 < 12)%nat /\
  (exists w',
     seek 12 1 SEEK_END w = (Returns tt, w') /\
     _stream w' = [] /\ tell w' = len bs - 1) /\
  tell (snd (seek 12 1 SEEK_END w)) = 9.
Proof.
  intros bs calls w. split; [lia|].
  split; [vm_compute; split; discriminate|].
  split; [lia|]. split; [simpl; lia|]. split; [|reflexivity].
  apply (seek_end_after_rewind bs 4 calls 1 0 12);
    [lia | vm_compute; split; discriminate | lia | simpl; lia].
Defined.

(** ** The window holds the most recent bytes *)

Lemma commutes_ret {S A} (a : A) : @commutes S A (ret a) (ret a).
Proof. intros w. reflexivity. Qed.

Lemma commutes_raise {S A} (e : exn) : @commutes S A (raise e) (raise e).
Proof. intros w. reflexivity. Qed.

Lemma commutes_put {S} (f : wrapper S -> wrapper S)
    (f' : wrapper (logged S) -> wrapper (logged S)) :
  (forall w, f (forget w) = forget (f' w)) -> commutes (put f) (put f').
Proof. intros Hf w. unfold put. simpl. rewrite Hf. reflexivity. Qed.

Lemma commutes_bind {S A B} (c : M S A) (c' : M (logged S) A)
    (k : A -> M S B) (k' : A -> M (logged S) B) :
  commutes c c' -> (forall a, commutes (k a) (k' a)) ->
  commutes (bind c k) (bind c' k').
Proof.
  intros Hc Hk w. unfold bind. rewrite Hc.
  destruct (c' w) as [[a|e|] w1]; simpl; [apply Hk | reflexivity..].
Qed.

Lemma commutes_get {S B} (k : wrapper S -> M S B)
    (k' : wrapper (logged S) -> M (logged S) B) :
  (forall w0, commutes (k (forget w0)) (k' w0)) ->
  commutes (bind get k) (bind get k').
Proof. intros Hk w. unfold bind, get. apply Hk. Qed.

Lemma _read_from_buffer_loop_commutes {S} (blocks : list bytes) :
  forall pib remaining read_size buffered,
    @commutes S _
      (_read_from_buffer_loop blocks pib remaining read_size buffered)
      (_read_from_buffer_loop blocks pib remaining read_size buffered).
Proof.
  induction blocks as [|data rest IH]; intros pib remaining rs buffered.
  - apply commutes_ret.
  - simpl. apply commutes_get. intros w0. unfold forget at 1 2.
    projections.
    destruct (pib + len data >=? _position w0).
    + apply commutes_bind; [|intros _; apply IH].
      apply commutes_put. reflexivity.
    + destruct rs as [r|]; [|apply commutes_raise].
      apply commutes_bind; [|intros _; apply IH].
      apply commutes_put. reflexivity.
Qed.

Lemma _read_from_buffer_commutes {S} (amount : Z) :
  @commutes S _ (_read_from_buffer amount) (_read_from_buffer amount).
Proof.
  unfold _read_from_buffer. apply commutes_get. intros w0.
  unfold forget at 1 2 3 4. projections.
  destruct (_position w0 <? _buffer_end w0); [|apply commutes_ret].
  apply commutes_bind; [apply _read_from_buffer_loop_commutes|].
  intros out. apply commutes_ret.
Qed.

Lemma _store_data_loop_commutes {S} (fuel : nat) :
  @commutes S _ (_store_data_loop fuel) (_store_data_loop fuel).
Proof.
  induction fuel as [|fuel IH]; [intros w; reflexivity|].
  simpl. apply commutes_get. intros w0. unfold forget at 1 2 3 4.
  projections.
  destruct (_buffer_end w0 - _buffer_start w0 >? _max_buffer_size w0);
    [|apply commutes_ret].
  destruct (_buffer w0) as [|oldest rest]; [apply commutes_raise|].
  apply commutes_bind; [apply commutes_put; reflexivity | intros _].
  apply commutes_bind; [apply commutes_put; reflexivity | intros _].
  apply commutes_get. intros w1. unfold forget at 1 2 3 4 5 6.
  projections.
  destruct oldest as [|c oldest]; [exact IH|].
  destruct (_max_buffer_size w1 - (_buffer_end w1 - _buffer_start w1) >=? 1);
    [|exact IH].
  apply commutes_bind; [apply commutes_put; reflexivity | intros _].
  apply commutes_bind; [apply commutes_put; reflexivity | intros _].
  exact IH.
Qed.

Lemma _store_data_commutes {S} (data : bytes) :
  @commutes S _ (_store_data data) (_store_data data).
Proof.
  destruct data as [|c data]; [apply commutes_ret|].
  unfold _store_data.
  apply commutes_bind; [apply commutes_put; reflexivity | intros _].
  apply commutes_bind; [apply commutes_put; reflexivity | intros _].
  apply commutes_get. intros w0. unfold forget at 1. projections.
  apply _store_data_loop_commutes.
Qed.

Lemma read_stream_commutes {S} `{RawStream S} (n : Z) :
  commutes (read_stream n) (read_stream n).
Proof.
  intros w. unfold read_stream. simpl.
  destruct (stream_read n (inner (_stream w))) as [data rest]. reflexivity.
Qed.

Lemma read_commutes {S} `{RawStream S} (size : option Z) :
  commutes (read size) (read size).
Proof.
  unfold read. apply commutes_get. intros w0. unfold forget at 1 2 3.
  projections.
  apply commutes_bind; [apply _read_from_buffer_commutes | intros data].
  apply commutes_bind.
  { destruct (read_all_bytes size); [apply read_stream_commutes|].
    destruct (negb _); [apply read_stream_commutes | apply commutes_ret]. }
  intros new_data.
  apply commutes_bind; [apply commutes_put; reflexivity | intros _].
  apply commutes_bind; [apply _store_data_commutes | intros _].
  apply commutes_ret.
Qed.

Lemma drain_commutes {S} `{RawStream S} (fuel : nat) :
  commutes (drain fuel) (drain fuel).
Proof.
  induction fuel as [|fuel IH]; [intros w; reflexivity|].
  simpl. apply commutes_get. intros w0. unfold forget at 1. projections.
  apply commutes_bind; [apply read_commutes | intros data].
  destruct data; [apply commutes_ret | exact IH].
Qed.

Lemma seek_commutes {S} `{RawStream S} (fuel : nat) (offset whence : Z) :
  commutes (seek fuel offset whence) (seek fuel offset whence).
Proof.
  unfold seek. apply commutes_get. intros w0.
  unfold forget. projections.
  destruct (whence =? SEEK_SET).
  { destruct (_ || _); [apply commutes_raise|].
    apply commutes_put. reflexivity. }
  destruct (whence =? SEEK_END); [|apply commutes_raise].
  destruct (offset >? _max_buffer_size w0); [apply commutes_raise|].
  apply commutes_bind; [apply drain_commutes | intros _].
  apply commutes_put. reflexivity.
Qed.

Lemma do_call_commutes {S} `{RawStream S} (fuel : nat) (c : call) :
  commutes (do_call fuel c) (do_call fuel c).
Proof.
  destruct c as [size|offset whence|]; simpl.
  - apply commutes_bind; [apply read_commutes | intros data].
    apply commutes_ret.
  - apply commutes_bind; [apply seek_commutes | intros _].
    apply commutes_ret.
  - apply commutes_get. intros w0. apply commutes_ret.
Qed.

(** A run over a logged stream is the run over the stream itself, the log
    left out. *)
Lemma run_forget {S} `{RawStream S} (fuel : nat) (calls : list call) :
  forall w : wrapper (logged S),
    map (fun r => (fst r, forget (snd r))) (run fuel calls w)
    = run fuel calls (forget w).
Proof.
  induction calls as [|c rest IH]; intros w; [reflexivity|].
  simpl. rewrite (do_call_commutes fuel c w).
  destruct (do_call fuel c w) as [[v|e|] w1]; simpl;
    try rewrite IH; reflexivity.
Qed.

Lemma from_stream_logged {S} `{RawStream S} (size : option Z)
    (remaining : Z) (s : logged S) :
  returned (snd (from_stream size remaining s))
  = returned s ++ fst (from_stream size remaining s).
Proof.
  unfold from_stream.
  destruct (read_all_bytes size); [|destruct (negb _)]; simpl;
    try (destruct (stream_read _ (inner s)); reflexivity).
  symmetry. apply app_nil_r.
Qed.

(** [read] keeps the window in step with the log. *)
Lemma read_logs {S} `{RawStream S} (size : option Z)
    (w : wrapper (logged S)) o w' :
  window_ok w -> logs w -> read size w = (o, w') -> logs w'.
Proof.
  intros Hok (Hend & Hstart & Hj) E.
  destruct (read_effect size w o w' Hok E) as [[_ Hf]|(r & Happ & Hst)].
  { unfold same_window in Hf. rewrite Hf. unfold logs. simpl. auto. }
  cbv zeta in Happ, Hst.
  destruct Happ as (He & Hs & Hj' & Hm & _).
  pose proof (from_stream_logged size r (_stream w)) as Hlog.
  rewrite <- Hst in Hlog.
  set (new := fst (from_stream size r (_stream w))) in *.
  pose proof (len_nonneg new) as Hn.
  pose proof (len_nonneg (returned (_stream w))) as Hl.
  assert (Hmax : 0 <= _max_buffer_size w) by apply Hok.
  unfold logs. rewrite Hlog, len_app, Hm.
  split; [lia|]. split; [lia|].
  rewrite Hj', Hj.
  rewrite <- skipn_app_le by (unfold len in *; lia).
  rewrite skipn_skipn. f_equal. lia.
Qed.

(** Whatever calls are made on a fresh wrapper whose [max_buffer_size] is
    not negative, and whatever the stream returns: with the bytes the stream
    has returned so far kept in a log, a run is call for call the run over
    the stream itself, and after every call [buffer_end] is the number of
    bytes the stream has returned, [buffer_start] is [max_buffer_size] bytes
    before it, or 0 while fewer were returned, and the blocks put end to end
    are the bytes returned from [buffer_start] on: the window holds the
    bytes read last, as many as the maximum allows. *)
Theorem window_is_most_recent {S} `{RawStream S} (stream : S)
    (max_buffer_size : Z) (fuel : nat) (calls : list call) :
  0 <= max_buffer_size ->
  let trace := run fuel calls (init (Logged stream []) max_buffer_size) in
  map (fun r => (fst r, forget (snd r))) trace
  = run fuel calls (init stream max_buffer_size) /\
  Forall (fun r =>
            _buffer_end (snd r) = len (returned (_stream (snd r))) /\
            _buffer_start (snd r)
            = Z.max 0 (len (returned (_stream (snd r))) - max_buffer_size) /\
            join (_buffer (snd r))
            = skipn (Z.to_nat (_buffer_start (snd r)))
                    (returned (_stream (snd r))))
         trace.
Proof.
  intros Hmax trace. subst trace. split; [apply run_forget|].
  pose proof (window_ok_init (Logged stream []) max_buffer_size Hmax) as Hok.
  destruct (run_preserves fuel calls _ Hok) as [Hrun _].
  assert (Hlogs : logs (init (Logged stream []) max_buffer_size)).
  { unfold logs, init. simpl. change (len []) with 0.
    repeat split; lia. }
  pose proof (run_invariant logs read_logs (fun w p Hw => Hw) fuel calls _
                Hok Hlogs) as Hrun2.
  rewrite Forall_forall in *. intros r Hr.
  destruct (Hrun r Hr) as [_ Hm]. simpl in Hm.
  destruct (Hrun2 r Hr) as (H1 & H2 & H3).
  rewrite Hm in H2. auto.
Qed.

Lemma window_is_most_recent_witness :
  let calls := [CallRead (Some 3); CallRead (Some 3); CallSeek 2 SEEK_SET;
                CallRead (Some 4); CallRead (Some 3); CallSeek 1 SEEK_END] in
  let trace := run 5 calls (init (Logged (b "0123456789"%string) []) 4) in
  0 <= 4 /\
  (map (fun r => (fst r, forget (snd r))) trace
   = run 5 calls (init (b "0123456789"%string) 4) /\
   Forall (fun r =>
             _buffer_end (snd r) = len (returned (_stream (snd r))) /\
             _buffer_start (snd r)
             = Z.max 0 (len (returned (_stream (snd r))) - 4) /\
             join (_buffer (snd r))
             = skipn (Z.to_nat (_buffer_start (snd r)))
                     (returned (_stream (snd r))))
          trace) /\
  map (fun r => (_buffer_start (snd r), _buffer_end (snd r),
                 join (_buffer (snd r)))) trace
  = [(0, 3, b "012"%string); (2, 6, b "2345"%string);
     (2, 6, b "2345"%string); (2, 6, b "2345"%string);
     (5, 9, b "5678"%string); (6, 10, b "6789"%string)].
Proof.
  intros calls trace. split; [lia|]. split; [|reflexivity].
  apply (window_is_most_recent (b "0123456789"%string) 4 5 calls). lia.
Defined.

(** ** What [_read_from_buffer] leaves alone, and where it fails *)

(** Whatever its outcome, [_read_from_buffer] changes nothing but the
    cursor: the stream is not read and the window is not touched. *)
Theorem _read_from_buffer_only_moves_cursor {S} (amount : Z)
    (w : wrapper S) :
  snd (_read_from_buffer amount w)
  = set_position w (_position (snd (_read_from_buffer amount w))).
Proof.
  destruct (_read_from_buffer amount w) as [o w'] eqn:E.
  exact (_read_from_buffer_frame amount w o w' E).
Qed.

(** With a backward seek pending into a block after the first, every
    [read] raises [UnboundLocalError] and changes nothing, and so does an
    end-relative seek, whose loop starts with a [read]. *)
Theorem pending_seek_beyond_first_block_raises {S} `{RawStream S}
    (size : option Z) (offset : Z) (fuel : nat) (w : wrapper S)
    (data : bytes) (rest : list bytes) :
  _buffer w = data :: rest ->
  _position w < _buffer_end w ->
  _buffer_start w + len data < _position w ->
  offset <= _max_buffer_size w ->
  read size w = (Raises (UnboundLocalError "read_size"%string), w) /\
  seek (Datatypes.S fuel) offset SEEK_END w
  = (Raises (UnboundLocalError "read_size"%string), w).
Proof.
  intros Eb Hpending Hbefore Hoff.
  split; [exact (read_beyond_first_block_raises size w data rest
                   Eb Hpending Hbefore)|].
  unfold seek, bind at 1, get at 1. simpl.
  destruct (Z.gtb_spec offset (_max_buffer_size w)) as [|_]; [lia|].
  unfold bind at 1. unfold bind at 1, get at 1. unfold bind at 1.
  rewrite (read_beyond_first_block_raises _ w data rest Eb Hpending Hbefore).
  reflexivity.
Qed.

(** The scenario after [seek(5)], over a stream that counts its reads. *)
Lemma pending_seek_beyond_first_block_raises_witness :
  let w0 := init (Counted 0 (b "0123456789"%string)) 4 in
  let w := set_position (after_reads [Some 4; Some 2] w0) 5 in
  _buffer w = [b "23"%string; b "45"%string] /\
  _position w < _buffer_end w /\
  _buffer_start w + len (b "23"%string) < _position w /\
  0 <= _max_buffer_size w /\
  read (Some 1) w = (Raises (UnboundLocalError "read_size"%string), w) /\
  seek 1 0 SEEK_END w = (Raises (UnboundLocalError "read_size"%string), w).
Proof.
  intros w0 w. split; [reflexivity|]. split; [reflexivity|].
  split; [reflexivity|]. split; [vm_compute; discriminate|].
  apply (pending_seek_beyond_first_block_raises (Some 1) 0 0 w
           (b "23"%string) [b "45"%string]);
    [reflexivity | reflexivity | reflexivity | vm_compute; discriminate].
Defined.

(** ** Runs within the window *)

(** Calls of every kind, the end-relative seek with a distance that is not
    negative. *)
Lemma cursor_within_window_witness :
  0 <= 4 /\
  Forall backward_call
         [CallRead (Some 6); CallSeek 3 SEEK_SET; CallRead None;
          CallSeek 2 SEEK_END; CallSeek 7 1; CallTell] /\
  Forall (fun r => _position (snd r) <= _buffer_end (snd r))
         (run 5 [CallRead (Some 6); CallSeek 3 SEEK_SET; CallRead None;
                 CallSeek 2 SEEK_END; CallSeek 7 1; CallTell]
              (init (b "0123456789"%string) 4)).
Proof.
  assert (Hback : Forall backward_call
                    [CallRead (Some 6); CallSeek 3 SEEK_SET; CallRead None;
                     CallSeek 2 SEEK_END; CallSeek 7 1; CallTell]).
  { repeat constructor; unfold backward; simpl; intros; try lia;
      discriminate. }
  split; [lia|]. split; [exact Hback|].
  apply (cursor_within_window (b "0123456789"%string) 4 5); [lia|].
  exact Hback.
Defined.

(** ** The cursor and the bytes returned *)

(** For every stream: when no backward seek is pending, or the cursor is in
    the first block or at one of its ends, a [read] that returns moves the
    cursor by the number of bytes it returns. *)
Theorem read_advances_by_returned {S} `{RawStream S} (size : option Z)
    (w : wrapper S) (data : bytes) (w' : wrapper S) :
  window_ok w ->
  _buffer_end w <= _position w \/ in_first_block w ->
  read size w = (Returns data, w') ->
  tell w' = tell w + len data.
Proof.
  intros Hok Hcur E. unfold tell.
  assert (Hbuf : exists d,
             _read_from_buffer (bytes_wanted size (_max_buffer_size w)) w
             = (Returns d, set_position w (_position w + len d))).
  { destruct Hcur as [Hend|Hin].
    - exists []. rewrite _read_from_buffer_nothing by exact Hend.
      change (len []) with 0. rewrite set_position_id. reflexivity.
    - eexists. apply _read_from_buffer_exact; [|apply Hok | exact Hin].
      apply bytes_wanted_nonneg. apply Hok. }
  destruct Hbuf as (d & E1).
  destruct (read_returns size w d _ Hok E1) as (w2 & E2 & _ & _ & Hp & _).
  cbv zeta in E2, Hp. rewrite E in E2. inversion E2; subst.
  rewrite Hp, len_app. simpl. lia.
Qed.

(** A read across the end of the window, over a stream that counts its
    reads. *)
Lemma read_advances_by_returned_witness :
  let w0 := init (Counted 0 (b "0123456789"%string)) 4 in
  let w := set_position (after_reads [Some 4; Some 2] w0) 3 in
  window_ok w /\
  (_buffer_end w <= _position w \/ in_first_block w) /\
  read (Some 5) w = (Returns (b "34567"%string), snd (read (Some 5) w)) /\
  tell (snd (read (Some 5) w)) = tell w + len (b "34567"%string).
Proof.
  intros w0 w.
  assert (Hok : window_ok w).
  { unfold window_ok, window_consistent, window_bounded.
    vm_compute. repeat split; discriminate. }
  assert (Hin : in_first_block w) by (vm_compute; split; discriminate).
  split; [exact Hok|]. split; [right; exact Hin|]. split; [reflexivity|].
  apply (read_advances_by_returned (Some 5) w (b "34567"%string)
           (snd (read (Some 5) w)) Hok (or_intror Hin)).
  reflexivity.
Defined.
